(** * A shallow embedding of the dataset comparison pipeline of llm-task

    The program (one TypeScript module and [types.ts]) embeds the entries
    of two datasets through a remote embedding service, matches every
    entry of the first dataset with its most similar entry of the second
    by cosine similarity, asks a remote completion service for a summary of
    the differences of every matched pair and writes a report.

    JavaScript numbers are IEEE binary64 values, modelled by Rocq's
    primitive floats: [<] on numbers is [PrimFloat.ltb], [===] is
    [PrimFloat.eqb], and NaN behaves as in JavaScript.  The asynchronous
    code is modelled in a writer-and-exception monad whose output is the
    trace of externally visible events (requests to the remote services,
    inter-batch pauses, the report written to disk). *)

From Stdlib Require Import List String Ascii ZArith Lia Bool Arith PeanoNat.
From Stdlib Require Import Permutation.
From Stdlib Require Import Floats.
From Stdlib Require Uint63.
Import ListNotations.

Open Scope string_scope.

(** ** Data model ([src/types.ts]) *)

Record DatasetEntry := {
  id : Z;
  name : string;
  title : string;
  summary : string;
  skills : list string
}.

(** [interface DatasetEntryWithEmbedding extends DatasetEntry]: the
    entry's own fields plus [embedding]. *)
Record DatasetEntryWithEmbedding := {
  base : DatasetEntry;
  embedding : list float
}.

(** [match] is a keyword of Rocq: the field is [match_]. *)
Record MatchResult := {
  match_ : DatasetEntryWithEmbedding;
  score : float
}.

Record ComparisonResult := {
  cr_entryA : DatasetEntry;
  cr_match : DatasetEntry;
  cr_similarityScore : float;
  diffSummary : option string  (* [string | null] *)
}.

Record ComparisonReport := {
  comparisonDate : string;
  totalComparisons : nat;
  results : list ComparisonResult
}.

(** The element type of the array handed to
    [generateDiffSummariesWithBatching]. *)
Record Comparison := {
  c_entryA : DatasetEntry;
  c_match : DatasetEntry;
  similarityScore : float
}.

(** ** Similarity scorer *)

(** Modelled from the spec: the [cosineSimilarity] function of the
    external [cos-similarity] package, which is not part of this
    repository (spec 4.1: the dot product divided by the product of the
    magnitudes).  Sums are accumulated left to right from [0] as a loop
    over the coordinates does; a zero vector gives [0/0], that is NaN. *)
Definition dotProduct (x y : list float) : float :=
  fold_left (fun acc p => (acc + fst p * snd p)%float) (combine x y) 0%float.

Definition magnitude (x : list float) : float :=
  sqrt (dotProduct x x).

Definition cosineSimilarity (x y : list float) : float :=
  (dotProduct x y / (magnitude x * magnitude y))%float.

(** ** Results of throwing code *)

Inductive outcome (A : Type) : Type :=
| Ok (a : A)
| Throw (e : string)
| Diverge.
Arguments Ok {A} a.
Arguments Throw {A} e.
Arguments Diverge {A}.

(** ** Matcher ([findBestMatch]) *)

(** The [for (const entryB of datasetBWithEmbeddings)] loop, with the
    two [let] variables [bestMatch] and [bestScore] as accumulators. *)
Fixpoint findBestMatch_loop (entryA : DatasetEntryWithEmbedding)
    (bestMatch : option DatasetEntryWithEmbedding) (bestScore : float)
    (datasetB : list DatasetEntryWithEmbedding)
    : option DatasetEntryWithEmbedding * float :=
  match datasetB with
  | [] => (bestMatch, bestScore)
  | entryB :: rest =>
      let similarity := cosineSimilarity (embedding entryA) (embedding entryB) in
      if (bestScore <? similarity)%float
      then findBestMatch_loop entryA (Some entryB) similarity rest
      else findBestMatch_loop entryA bestMatch bestScore rest
  end.

Definition findBestMatch (entryA : DatasetEntryWithEmbedding)
    (datasetBWithEmbeddings : list DatasetEntryWithEmbedding) : outcome MatchResult :=
  let '(bestMatch, bestScore) :=
    findBestMatch_loop entryA None (-1)%float datasetBWithEmbeddings in
  match bestMatch with
  | None => Throw "No match found"
  | Some m => Ok {| match_ := m; score := bestScore |}
  end.

(** ** Effects: the trace of visible events, and exceptions *)

(** The request bodies carry fixed model names and settings besides the
    text; an event records the part that varies. *)
Inductive event : Type :=
| EvEmbed (text : string)                       (* openai.embeddings.create *)
| EvComplete (prompt : string)                  (* openai.chat.completions.create *)
| EvPause (ms : nat)                            (* await setTimeout(..., ms) *)
| EvWrite (file : string) (report : ComparisonReport).  (* writeFile *)

(** A computation: the events it emits, and how it ends. *)
Definition M (A : Type) : Type := (list event * outcome A)%type.

Definition ret {A} (a : A) : M A := ([], Ok a).

Definition throw {A} (e : string) : M A := ([], Throw e).

Definition emit (ev : event) : M unit := ([ev], Ok tt).

Definition bind {A B} (m : M A) (k : A -> M B) : M B :=
  match m with
  | (t1, Ok a) => let '(t2, r) := k a in ((t1 ++ t2)%list, r)
  | (t1, Throw e) => (t1, Throw e)
  | (t1, Diverge) => (t1, Diverge)
  end.

Notation "x <- m ;; k" := (bind m (fun x => k))
  (at level 61, m at next level, right associativity).

(** [try { m } catch (error) { h(error) }] *)
Definition catch {A} (m : M A) (h : string -> M A) : M A :=
  match m with
  | (t1, Throw e) => let '(t2, r) := h e in ((t1 ++ t2)%list, r)
  | other => other
  end.

(** A value computed by (possibly throwing) synchronous code. *)
Definition liftOutcome {A} (o : outcome A) : M A := ([], o).

(** [array.map(f)] with a callback that may throw: the first exception
    propagates and the remaining elements are not visited. *)
Fixpoint mapM {A B} (f : A -> M B) (l : list A) : M (list B) :=
  match l with
  | [] => ret []
  | x :: rest => y <- f x ;; ys <- mapM f rest ;; ret (y :: ys)
  end.

(** ** The remote services (the [openai] client) *)

(** A remote call either resolves with the response or rejects. *)
Inductive reply (A : Type) : Type :=
| Resolved (a : A)
| Rejected (err : string).
Arguments Resolved {A} a.
Arguments Rejected {A} err.

Record Services := {
  (** [response.data[0].embedding] for an input text *)
  embeddings_create : string -> reply (list float);
  (** [response.choices[0].message.content] for a prompt: [None] when
      the content is [null] or [undefined] *)
  chat_completions_create : string -> reply (option string)
}.

(** ** Text *)

Definition nl : string := String (ascii_of_nat 10) EmptyString.

(** [array.join(sep)] *)
Fixpoint join (sep : string) (l : list string) : string :=
  match l with
  | [] => ""
  | [x] => x
  | x :: rest => x ++ sep ++ join sep rest
  end.

(** [String.prototype.trim] on the ASCII white space and line
    terminators (tab, line feed, vertical tab, form feed, carriage
    return, space). *)
Definition is_ws (c : ascii) : bool :=
  let n := nat_of_ascii c in Nat.eqb n 32 || (Nat.leb 9 n && Nat.leb n 13).

Fixpoint drop_ws (l : list ascii) : list ascii :=
  match l with
  | c :: rest => if is_ws c then drop_ws rest else l
  | [] => []
  end.

Definition trim (s : string) : string :=
  string_of_list_ascii (rev (drop_ws (rev (drop_ws (list_ascii_of_string s))))).

Definition createTextRepresentation (entry : DatasetEntry) : string :=
  "Name: " ++ name entry ++ nl ++ "Title: " ++ title entry ++ nl ++
  "Summary: " ++ summary entry ++ nl ++ "Skills: " ++ join ", " (skills entry).

Definition diffPrompt (entryA entryB : DatasetEntry) : string :=
  "Compare these two user profiles and provide a brief summary of the differences:" ++ nl ++ nl ++
  "Profile A:" ++ nl ++
  "Name: " ++ name entryA ++ nl ++
  "Title: " ++ title entryA ++ nl ++
  "Summary: " ++ summary entryA ++ nl ++
  "Skills: " ++ join ", " (skills entryA) ++ nl ++ nl ++
  "Profile B:" ++ nl ++
  "Name: " ++ name entryB ++ nl ++
  "Title: " ++ title entryB ++ nl ++
  "Summary: " ++ summary entryB ++ nl ++
  "Skills: " ++ join ", " (skills entryB) ++ nl ++ nl ++
  "Provide a concise summary of the key differences (e.g., " ++
  String (ascii_of_nat 34) "Skills updated, title changed from 'Dev' to 'Sr. Dev'" ++
  String (ascii_of_nat 34) "). Focus on meaningful changes.".

(** ** [Promise.all] *)

(** The launched promises settle in the completion order [order] (a list
    of positions); every fulfilled value is written to the slot of its
    position, the first rejection rejects the whole, and a promise that
    never settles leaves its slot empty. *)
Fixpoint settle {R} (outs : list (outcome R)) (order : list nat)
    (slots : nat -> option R) : outcome (nat -> option R) :=
  match order with
  | [] => Ok slots
  | k :: order' =>
      match nth_error outs k with
      | Some (Ok v) => settle outs order' (fun j => if Nat.eqb j k then Some v else slots j)
      | Some (Throw e) => Throw e
      | _ => settle outs order' slots
      end
  end.

Fixpoint allFilled {R} (slots : list (option R)) : option (list R) :=
  match slots with
  | [] => Some []
  | Some v :: rest => option_map (cons v) (allFilled rest)
  | None :: _ => None
  end.

(** Each async callback runs up to its first [await] when it is
    launched, so the requests of a batch are issued in launch order. *)
Definition promiseAll {R} (order : list nat) (launched : list (M R)) : M (list R) :=
  (List.concat (map fst launched),
   match settle (map snd launched) order (fun _ => None) with
   | Ok slots =>
       match allFilled (map slots (seq 0 (List.length launched))) with
       | Some vs => Ok vs
       | None => Diverge
       end
   | Throw e => Throw e
   | Diverge => Diverge
   end).

(** ** Batch scheduler *)

Definition BATCH_SIZE : nat := 10.
Definition RATE_LIMIT_DELAY : nat := 1000.

(** The loop shared by [generateEmbeddingsWithBatching] and
    [generateDiffSummariesWithBatching]:
<<
    for (let i = 0; i < entries.length; i += BATCH_SIZE) {
      const batch = entries.slice(i, i + BATCH_SIZE)
      const batchResults = await Promise.all(batch.map(task))
      results.push(...batchResults)
      if (i + BATCH_SIZE < entries.length) await pause(RATE_LIMIT_DELAY)
    }
    return results
>>
    [order i n] is the order in which the [n] requests of the batch
    starting at [i] complete.  [fuel] bounds the iterations: with a
    positive batch size [length entries + 1] tests of the loop condition
    suffice; with batch size 0 the loop never ends ([Diverge]). *)
Section BatchLoop.
Context {A R : Type}.
Variable batchSize : nat.
Variable order : nat -> nat -> list nat.
Variable task : A -> M R.
Variable entries : list A.

Fixpoint batchLoop (fuel i : nat) (results : list R) : M (list R) :=
    match fuel with
    | O => ([], Diverge)
    | S fuel' =>
        if Nat.ltb i (List.length entries) then
          let batch := firstn batchSize (skipn i entries) in
          batchResults <- promiseAll (order i (List.length batch)) (map task batch) ;;
          _ <- (if Nat.ltb (i + batchSize) (List.length entries)
                then emit (EvPause RATE_LIMIT_DELAY) else ret tt) ;;
          batchLoop fuel' (i + batchSize) (results ++ batchResults)
        else ret results
    end.

Definition runBatched : M (list R) := batchLoop (S (List.length entries)) 0 [].
End BatchLoop.

(** ** Embedding stage *)

Definition generateEmbedding (svc : Services) (text : string) : M (list float) :=
  _ <- emit (EvEmbed text) ;;
  match embeddings_create svc text with
  | Resolved v => ret v
  | Rejected e => throw e
  end.

(** [async (entry) => ({ ...entry, embedding: await generateEmbedding(text) })] *)
Definition embedTask (svc : Services) (entry : DatasetEntry) : M DatasetEntryWithEmbedding :=
  let text := createTextRepresentation entry in
  emb <- generateEmbedding svc text ;;
  ret {| base := entry; embedding := emb |}.

Definition generateEmbeddingsWithBatching (svc : Services) (order : nat -> nat -> list nat)
    (entries : list DatasetEntry) : M (list DatasetEntryWithEmbedding) :=
  runBatched BATCH_SIZE order (embedTask svc) entries.

(** ** Diff summarization stage *)

Definition generateDiffSummary (svc : Services) (entryA entryB : DatasetEntry)
    : M (option string) :=
  catch
    (let prompt := diffPrompt entryA entryB in
     _ <- emit (EvComplete prompt) ;;
     match chat_completions_create svc prompt with
     | Resolved content => ret (option_map trim content)  (* content?.trim() ?? null *)
     | Rejected e => throw e
     end)
    (fun _ => ret (Some "Error generating diff summary")).

Definition diffTask (svc : Services) (comparison : Comparison) : M ComparisonResult :=
  ds <- (if (similarityScore comparison =? 1)%float
         then ret (Some "No differences")
         else generateDiffSummary svc (c_entryA comparison) (c_match comparison)) ;;
  ret {| cr_entryA := c_entryA comparison;
         cr_match := c_match comparison;
         cr_similarityScore := similarityScore comparison;
         diffSummary := ds |}.

Definition generateDiffSummariesWithBatching (svc : Services) (order : nat -> nat -> list nat)
    (comparisons : list Comparison) : M (list ComparisonResult) :=
  runBatched BATCH_SIZE order (diffTask svc) comparisons.

(** ** The pipeline ([compareDatasets]) *)

(** [{ id: e.id, name: e.name, title: e.title, summary: e.summary, skills: e.skills }] *)
Definition stripEmbedding (e : DatasetEntryWithEmbedding) : DatasetEntry :=
  {| id := id (base e); name := name (base e); title := title (base e);
     summary := summary (base e); skills := skills (base e) |}.

(** [datasetAWithEmbeddings.map((entryA) => { ... findBestMatch(...) ... })] *)
Definition matchStage (datasetBWithEmbeddings datasetAWithEmbeddings : list DatasetEntryWithEmbedding)
    : M (list Comparison) :=
  mapM (fun entryA =>
          r <- liftOutcome (findBestMatch entryA datasetBWithEmbeddings) ;;
          ret {| c_entryA := stripEmbedding entryA;
                 c_match := stripEmbedding (match_ r);
                 similarityScore := score r |})
       datasetAWithEmbeddings.

(** The completion orders of the batches of the three batched stages. *)
Record Timing := {
  orderA : nat -> nat -> list nat;
  orderB : nat -> nat -> list nat;
  orderDiff : nat -> nat -> list nat
}.

(** [compareDatasets], from the parsed datasets on ([loadDatasets] reads
    and parses the two files) to the report written to disk; [now] is
    [new Date().toISOString()].  The closing console output is not
    modelled. *)
Definition compareDatasets (svc : Services) (timing : Timing) (now : string)
    (datasetA datasetB : list DatasetEntry) : M unit :=
  datasetAWithEmbeddings <- generateEmbeddingsWithBatching svc (orderA timing) datasetA ;;
  datasetBWithEmbeddings <- generateEmbeddingsWithBatching svc (orderB timing) datasetB ;;
  comparisons <- matchStage datasetBWithEmbeddings datasetAWithEmbeddings ;;
  finalResults <- generateDiffSummariesWithBatching svc (orderDiff timing) comparisons ;;
  emit (EvWrite "comparison_report.json"
          {| comparisonDate := now;
             totalComparisons := List.length finalResults;
             results := finalResults |}).

(** ** Observations on traces *)

Definition isPause (ev : event) : bool :=
  match ev with EvPause _ => true | _ => false end.

(** The inter-batch pauses of a trace. *)
Definition pauses (t : list event) : nat := List.length (filter isPause t).

(** The prompts sent to the completion service. *)
Definition completionRequests (t : list event) : list string :=
  flat_map (fun ev => match ev with EvComplete p => [p] | _ => [] end) t.

(** The reports written to disk. *)
Definition reportsWritten (t : list event) : list ComparisonReport :=
  flat_map (fun ev => match ev with EvWrite _ r => [r] | _ => [] end) t.

(** Every batch of every size completes in some order of its requests. *)
Definition ValidOrder (order : nat -> nat -> list nat) : Prop :=
  forall i n, Permutation (order i n) (seq 0 n).

Definition ValidTiming (timing : Timing) : Prop :=
  ValidOrder (orderA timing) /\ ValidOrder (orderB timing) /\ ValidOrder (orderDiff timing).

(** The texts sent to the embedding service. *)
Definition embeddingRequests (t : list event) : list string :=
  flat_map (fun ev => match ev with EvEmbed s => [s] | _ => [] end) t.

(** The runs of events between two pauses: what is issued back to back. *)
Fixpoint bursts (t : list event) : list (list event) :=
  match t with
  | [] => [[]]
  | ev :: rest =>
      if isPause ev then [] :: bursts rest
      else match bursts rest with
           | b :: bs => (ev :: b) :: bs
           | [] => [[ev]]
           end
  end.


(** The number [compareDatasets] prints last, before [toFixed(4)]:
    [finalResults.reduce((sum, r) => sum + r.similarityScore, 0) / finalResults.length]. *)
Definition averageSimilarityScore (finalResults : list ComparisonResult) : float :=
  (fold_left (fun sum r => sum + cr_similarityScore r) finalResults 0 /
   PrimFloat.of_uint63 (Uint63.of_Z (Z.of_nat (List.length finalResults))))%float.

(** ** What the per-item callbacks resolve with *)

(** The record built by the callback of [generateDiffSummariesWithBatching]. *)
Definition comparisonResult (c : Comparison) (ds : option string) : ComparisonResult :=
  {| cr_entryA := c_entryA c; cr_match := c_match c;
     cr_similarityScore := similarityScore c; diffSummary := ds |}.

Definition diffValue (svc : Services) (c : Comparison) : ComparisonResult :=
  comparisonResult c
    (if (similarityScore c =? 1)%float then Some "No differences"
     else match chat_completions_create svc (diffPrompt (c_entryA c) (c_match c)) with
          | Resolved content => option_map trim content
          | Rejected _ => Some "Error generating diff summary"
          end).

(** The embedded entry, when the embedding request resolves. *)
Definition embedValue (svc : Services) (x : DatasetEntry) : DatasetEntryWithEmbedding :=
  {| base := x;
     embedding := match embeddings_create svc (createTextRepresentation x) with
                  | Resolved v => v
                  | Rejected _ => []
                  end |}.

(** ** Concrete inputs *)

(** Requests completing in launch order, and in reverse launch order. *)
Definition inOrder (i n : nat) : list nat := seq 0 n.
Definition inReverse (i n : nat) : list nat := rev (seq 0 n).

Definition sameTiming (order : nat -> nat -> list nat) : Timing :=
  {| orderA := order; orderB := order; orderDiff := order |}.

Definition profile (i : Z) (nm : string) : DatasetEntry :=
  {| id := i; name := nm; title := "Eng"; summary := "builds things"; skills := ["Go"] |}.

Definition withEmbedding (e : DatasetEntry) (v : list float) : DatasetEntryWithEmbedding :=
  {| base := e; embedding := v |}.

(** Stub services: every text embeds to the same vector; completions
    answer with a fixed text, or fail, or have no content. *)
Definition constEmbed (v : list float) (_ : string) : reply (list float) := Resolved v.

Definition stubServices (answer : string -> reply (option string)) : Services :=
  {| embeddings_create := constEmbed [3%float; 4%float];
     chat_completions_create := answer |}.

Definition answerText (_ : string) : reply (option string) := Resolved (Some " Title changed ").
Definition answerFail (_ : string) : reply (option string) := Rejected "429 Too Many Requests".
Definition answerNull (_ : string) : reply (option string) := Resolved None.

(** Entries whose embeddings point in opposite directions (cosine
    similarity exactly [-1]), and an entry with the zero vector (cosine
    similarity [0/0], NaN). *)
Definition srcEntry : DatasetEntryWithEmbedding := withEmbedding (profile 1 "A") [1%float].
Definition oppositeEntry : DatasetEntryWithEmbedding := withEmbedding (profile 2 "B") [(-1)%float].
Definition oppositeEntry' : DatasetEntryWithEmbedding := withEmbedding (profile 3 "C") [(-2)%float].
Definition zeroEntry : DatasetEntryWithEmbedding := withEmbedding (profile 4 "D") [0%float].
Definition sameEntry : DatasetEntryWithEmbedding := withEmbedding (profile 5 "E") [2%float].

(** [n] entries, and comparisons of two fixed entries with a given score. *)
Definition sampleEntries (n : nat) : list DatasetEntry :=
  map (fun k => profile (Z.of_nat k) "P") (seq 0 n).

Definition sampleComparison (s : float) : Comparison :=
  {| c_entryA := profile 1 "A"; c_match := profile 2 "A2"; similarityScore := s |}.

(** Embedding stub that sets entry [A] apart from every other entry. *)
Definition embedFirstApart (text : string) : reply (list float) :=
  if String.eqb text (createTextRepresentation (profile 1 "A"))
  then Resolved [1%float; 0%float] else Resolved [1%float; 1%float].

Definition distinctServices (answer : string -> reply (option string)) : Services :=
  {| embeddings_create := embedFirstApart; chat_completions_create := answer |}.

Definition datasetA0 : list DatasetEntry := [profile 1 "A"; profile 3 "C"].
Definition datasetB0 : list DatasetEntry := [profile 2 "A2"; profile 4 "D"].

(** Every embedding request is rejected. *)
Definition rejectingServices : Services :=
  {| embeddings_create := fun _ => Rejected "503 Service Unavailable";
     chat_completions_create := answerText |}.

(** [n] entries with distinct names [A], [B], ..., and services that
    reject the embedding of the thirteenth of them, [M]. *)
Definition letterEntries (n : nat) : list DatasetEntry :=
  map (fun k => profile (Z.of_nat k) (String (ascii_of_nat (65 + k)) EmptyString)) (seq 0 n).

Definition embedRejectingM (text : string) : reply (list float) :=
  if String.eqb text (createTextRepresentation (profile 12 "M"))
  then Rejected "500 Internal Server Error" else Resolved [3%float; 4%float].

Definition rejectOneServices : Services :=
  {| embeddings_create := embedRejectingM; chat_completions_create := answerText |}.

(** The value a computation ends with, or [d]. *)
Definition okValue {A} (d : A) (m : M A) : A :=
  match snd m with Ok a => a | _ => d end.

(** * Properties *)

(** ** Ordering of binary64 values *)

Lemma SFltb_trans : forall a b c,
  SFltb a b = true -> SFltb b c = true -> SFltb a c = true.
Proof.
  unfold SFltb.
  intros [sa|sa| |sa ma ea] [sb|sb| |sb mb eb] [sc|sc| |sc mc ec]; simpl;
  try destruct sa; try destruct sb; try destruct sc; simpl; try discriminate; auto;
  repeat match goal with
  | |- context [Z.compare ?x ?y] => destruct (Z.compare_spec x y)
  | |- context [Pos.compare_cont Eq ?x ?y] =>
      change (Pos.compare_cont Eq x y) with (Pos.compare x y);
      destruct (Pos.compare_spec x y)
  end; simpl; intros; subst; try discriminate; auto; try lia.
Qed.

Lemma ltb_trans : forall x y z : float,
  (x <? y)%float = true -> (y <? z)%float = true -> (x <? z)%float = true.
Proof.
  intros x y z. rewrite !ltb_spec. apply SFltb_trans.
Qed.

(** What is strictly above some number is not NaN. *)
Lemma ltb_not_nan : forall x y : float,
  (x <? y)%float = true -> is_nan y = false.
Proof.
  intros x y. unfold is_nan. rewrite ltb_spec, eqb_spec.
  unfold SFltb, SFeqb.
  destruct (Prim2SF x) as [sa|sa| |sa ma ea], (Prim2SF y) as [sb|sb| |sb mb eb];
    simpl; try destruct sa; try destruct sb; simpl; try discriminate; auto;
  intros _; rewrite Z.compare_refl;
  change (Pos.compare_cont Eq mb mb) with (Pos.compare mb mb);
  rewrite Pos.compare_refl; reflexivity.
Qed.

(** ** The matcher's loop *)

(** The loop either keeps its initial pair, or ends on a target of the
    scanned list, with that target's similarity, strictly above the
    initial best score. *)
Lemma findBestMatch_loop_spec : forall entryA l bm bs bm' bs',
  findBestMatch_loop entryA bm bs l = (bm', bs') ->
  (bm' = bm /\ bs' = bs) \/
  (exists m, bm' = Some m /\ In m l /\
     bs' = cosineSimilarity (embedding entryA) (embedding m) /\
     (bs <? bs')%float = true).
Proof.
  intros entryA l. induction l as [|b l IH]; simpl; intros bm bs bm' bs' H.
  - inversion H; auto.
  - destruct (bs <? cosineSimilarity (embedding entryA) (embedding b))%float eqn:Hlt.
    + right. destruct (IH _ _ _ _ H) as [[-> ->] | (m & -> & Hin & -> & Hlt')].
      * exists b; auto.
      * exists m; repeat split; auto. eapply ltb_trans; eauto.
    + destruct (IH _ _ _ _ H) as [[-> ->] | (m & -> & Hin & -> & Hlt')]; auto.
      right. exists m; auto.
Qed.

(** A scan in which no target beats the current best leaves it alone. *)
Lemma findBestMatch_loop_keep : forall entryA l bm bs,
  (forall x, In x l ->
     (bs <? cosineSimilarity (embedding entryA) (embedding x))%float = false) ->
  findBestMatch_loop entryA bm bs l = (bm, bs).
Proof.
  intros entryA l. induction l as [|b l IH]; simpl; intros bm bs H; auto.
  rewrite (H b (or_introl eq_refl)). apply IH. auto.
Qed.

(** Ties: the returned target is the first one that beats every target
    before it and is not beaten by any target after it, provided its
    similarity is above [-1]. *)
Lemma findBestMatch_first_best : forall entryA pre m post,
  let sim x := cosineSimilarity (embedding entryA) (embedding x) in
  (forall x, In x pre -> (sim x <? sim m)%float = true) ->
  ((-1) <? sim m)%float = true ->
  (forall x, In x post -> (sim m <? sim x)%float = false) ->
  findBestMatch entryA (pre ++ m :: post) = Ok {| match_ := m; score := sim m |}.
Proof.
  intros entryA pre m post sim Hpre Hm Hpost.
  assert (Hsplit : forall bm bs l,
    findBestMatch_loop entryA bm bs (pre ++ l) =
    let '(bm1, bs1) := findBestMatch_loop entryA bm bs pre in
    findBestMatch_loop entryA bm1 bs1 l).
  { clear. induction pre as [|b pre IH]; intros bm bs l; simpl; [reflexivity|].
    destruct (bs <? cosineSimilarity (embedding entryA) (embedding b))%float; apply IH. }
  unfold findBestMatch. rewrite Hsplit.
  destruct (findBestMatch_loop entryA None (-1)%float pre) as [bm1 bs1] eqn:Hl.
  assert (Hlt : (bs1 <? sim m)%float = true).
  { destruct (findBestMatch_loop_spec _ _ _ _ _ _ Hl) as [[_ ->] | (x & _ & Hin & -> & _)].
    - exact Hm.
    - exact (Hpre x Hin). }
  simpl. fold (sim m). rewrite Hlt.
  rewrite findBestMatch_loop_keep; auto.
Qed.

(** C9: whenever [findBestMatch] returns, its score is strictly greater
    than [-1], is not NaN, and is the cosine similarity of the source
    entry and the returned target (which is one of the targets); so no
    [MatchResult] carries a score at or below [-1], or NaN. *)
Theorem findBestMatch_score_above_minus_one : forall entryA datasetB r,
  findBestMatch entryA datasetB = Ok r ->
  ((-1) <? score r)%float = true /\ is_nan (score r) = false /\
  score r = cosineSimilarity (embedding entryA) (embedding (match_ r)) /\
  In (match_ r) datasetB.
Proof.
  intros entryA datasetB r. unfold findBestMatch.
  destruct (findBestMatch_loop entryA None (-1)%float datasetB) as [bm bs] eqn:Hl.
  destruct bm as [m|]; intros H; inversion H; subst; clear H; simpl.
  destruct (findBestMatch_loop_spec _ _ _ _ _ _ Hl) as [[Hc _] | (m' & Hm & Hin & Hs & Hlt)].
  - discriminate.
  - inversion Hm; subst. repeat split; auto. eapply ltb_not_nan; eauto.
Qed.

Lemma findBestMatch_score_above_minus_one_witness :
  findBestMatch srcEntry [sameEntry] = Ok {| match_ := sameEntry; score := 1%float |} /\
  ((-1) <? 1)%float = true /\ is_nan 1%float = false /\
  1%float = cosineSimilarity (embedding srcEntry) (embedding sameEntry) /\
  In sameEntry [sameEntry].
Proof.
  split; [vm_compute; reflexivity|].
  apply (findBestMatch_score_above_minus_one srcEntry [sameEntry]
           {| match_ := sameEntry; score := 1%float |}).
  vm_compute. reflexivity.
Defined.

(** C6: with an empty target list [findBestMatch] throws
    ["No match found"]. *)
Theorem findBestMatch_empty_throws : forall entryA,
  findBestMatch entryA [] = Throw "No match found".
Proof. reflexivity. Qed.

(** C1 (the code at a failing input): a single target whose cosine
    similarity to the source is exactly [-1], or NaN, is not returned:
    [findBestMatch] throws ["No match found"]. *)
Theorem findBestMatch_single_target_not_returned :
  findBestMatch srcEntry [oppositeEntry] = Throw "No match found" /\
  findBestMatch srcEntry [zeroEntry] = Throw "No match found".
Proof. split; vm_compute; reflexivity. Qed.

(** C7 (the code at a failing input): two targets tie at the maximal
    similarity [-1]; [findBestMatch] returns neither of them but throws. *)
Theorem findBestMatch_tie_at_minus_one_throws :
  cosineSimilarity (embedding srcEntry) (embedding oppositeEntry) = (-1)%float /\
  cosineSimilarity (embedding srcEntry) (embedding oppositeEntry') = (-1)%float /\
  findBestMatch srcEntry [oppositeEntry; oppositeEntry'] = Throw "No match found".
Proof. repeat split; vm_compute; reflexivity. Qed.

(** ** The monad *)

Lemma bind_fst : forall A B (m : M A) (k : A -> M B),
  fst (bind m k) =
  (fst m ++ match snd m with Ok a => fst (k a) | _ => [] end)%list.
Proof.
  intros A B [t [a|e|]] k; simpl; try (rewrite app_nil_r; reflexivity).
  destruct (k a); reflexivity.
Qed.

Lemma bind_snd : forall A B (m : M A) (k : A -> M B),
  snd (bind m k) =
  match snd m with Ok a => snd (k a) | Throw e => Throw e | Diverge => Diverge end.
Proof.
  intros A B [t [a|e|]] k; simpl; try reflexivity.
  destruct (k a); reflexivity.
Qed.

Lemma bind_ok : forall A B t (a : A) (k : A -> M B),
  bind (t, Ok a) k = ((t ++ fst (k a))%list, snd (k a)).
Proof. intros. simpl. destruct (k a); reflexivity. Qed.

(** ** [Promise.all] *)

Section PromiseAll.
Context {R : Type}.

Lemma settle_ok : forall (vs : list R) order slots,
    (forall k, In k order -> k < List.length vs) ->
    exists slots', settle (map Ok vs) order slots = Ok slots' /\
      forall j, slots' j = if existsb (Nat.eqb j) order then nth_error vs j else slots j.
  Proof.
    intros vs order. induction order as [|k order IH]; intros slots Hk; simpl.
    - exists slots; auto.
    - assert (Hlt : k < List.length vs) by (apply Hk; left; reflexivity).
      destruct (nth_error vs k) as [v|] eqn:Hv.
      2: { apply nth_error_None in Hv. lia. }
      rewrite nth_error_map, Hv. simpl.
      destruct (IH (fun j => if Nat.eqb j k then Some v else slots j)) as [s' [Hs Hj]].
      { intros; apply Hk; right; auto. }
      exists s'. split; auto. intros j. rewrite Hj.
      destruct (Nat.eqb j k) eqn:Hjk; simpl.
      + apply Nat.eqb_eq in Hjk. subst. destruct (existsb _ _); auto.
      + reflexivity.
  Qed.

Lemma allFilled_map_Some : forall vs : list R, allFilled (map Some vs) = Some vs.
  Proof. induction vs as [|v vs IH]; simpl; [|rewrite IH]; reflexivity. Qed.

Lemma map_nth_error_seq : forall vs : list R,
    map (fun j => nth_error vs j) (seq 0 (List.length vs)) = map Some vs.
  Proof.
    induction vs as [|v vs IH]; [reflexivity|].
    simpl. f_equal. rewrite <- seq_shift, map_map. exact IH.
  Qed.

  (** Results are collected by position, whatever the completion order. *)
Lemma promiseAll_ok : forall (ms : list (M R)) vs order,
    map snd ms = map Ok vs ->
    Permutation order (seq 0 (List.length ms)) ->
    promiseAll order ms = (List.concat (map fst ms), Ok vs).
  Proof.
    intros ms vs order Hms Hperm. unfold promiseAll. rewrite Hms.
    assert (Hlen : List.length ms = List.length vs).
    { apply (f_equal (@List.length _)) in Hms. rewrite !length_map in Hms. exact Hms. }
    destruct (settle_ok vs order (fun _ => None)) as [s' [Hs Hj]].
    { intros k Hk. apply (Permutation_in _ Hperm), in_seq in Hk. lia. }
    rewrite Hs. f_equal.
    rewrite Hlen.
    rewrite (map_ext_in _ (fun j => nth_error vs j)).
    - rewrite map_nth_error_seq, allFilled_map_Some. reflexivity.
    - intros j Hin. rewrite Hj.
      replace (existsb (Nat.eqb j) order) with true; auto.
      symmetry. apply existsb_exists. exists j. split.
      + apply (Permutation_in _ (Permutation_sym Hperm)). rewrite Hlen. exact Hin.
      + apply Nat.eqb_refl.
  Qed.

Lemma settle_throw_in : forall (outs : list (outcome R)) order slots e,
    settle outs order slots = Throw e -> In (Throw e) outs.
  Proof.
    intros outs order. induction order as [|k order IH]; intros slots e; simpl.
    - discriminate.
    - destruct (nth_error outs k) as [[v|e'|]|] eqn:Hk; eauto.
      intros H. inversion H; subst. eapply nth_error_In; eauto.
  Qed.

Lemma settle_reaches_throw : forall (outs : list (outcome R)) order slots k e,
    (forall o, In o outs -> o <> Diverge) ->
    In k order -> nth_error outs k = Some (Throw e) ->
    exists e', settle outs order slots = Throw e'.
  Proof.
    intros outs order. induction order as [|k0 order IH]; intros slots k e Hnd Hin Hk;
      simpl in *; [contradiction|].
    destruct (nth_error outs k0) as [[v|e'|]|] eqn:Hk0.
    - destruct Hin as [<-|Hin]; [congruence|]. eauto.
    - eauto.
    - exfalso. eapply Hnd; [eapply nth_error_In; eauto | reflexivity].
    - destruct Hin as [<-|Hin]; [congruence|]. eauto.
  Qed.

Lemma promiseAll_throw_in : forall (ms : list (M R)) order e,
    snd (promiseAll order ms) = Throw e -> In (Throw e) (map snd ms).
  Proof.
    intros ms order e. unfold promiseAll. simpl.
    destruct (settle (map snd ms) order (fun _ => None)) eqn:Hs.
    - destruct (allFilled _); discriminate.
    - intros H. inversion H; subst. eapply settle_throw_in; eauto.
    - discriminate.
  Qed.

Lemma outcomes_ok_or_throw : forall outs : list (outcome R),
    (forall o, In o outs -> o <> Diverge) ->
    (exists vs, outs = map Ok vs) \/ (exists k e, nth_error outs k = Some (Throw e)).
  Proof.
    induction outs as [|o outs IH]; intros Hnd.
    - left. exists []. reflexivity.
    - destruct IH as [[vs ->]|(k & e & Hk)]; [intros; apply Hnd; right; auto| |].
      + destruct o as [v|e|].
        * left. exists (v :: vs). reflexivity.
        * right. exists 0, e. reflexivity.
        * exfalso. apply (Hnd Diverge); [left|]; reflexivity.
      + right. exists (S k), e. exact Hk.
  Qed.

  (** With every request settling, [Promise.all] settles. *)
Lemma promiseAll_not_diverge : forall (ms : list (M R)) order,
    (forall o, In o (map snd ms) -> o <> Diverge) ->
    Permutation order (seq 0 (List.length ms)) ->
    snd (promiseAll order ms) <> Diverge.
  Proof.
    intros ms order Hnd Hperm.
    destruct (outcomes_ok_or_throw _ Hnd) as [[vs Hvs]|(k & e & Hk)].
    - rewrite (promiseAll_ok _ _ _ Hvs Hperm). discriminate.
    - assert (Hko : In k order).
      { apply (Permutation_in _ (Permutation_sym Hperm)). apply in_seq.
        assert (Hl : List.length (map snd ms) = List.length ms) by apply length_map.
        split; [lia|]. rewrite <- Hl. apply nth_error_Some. congruence. }
      destruct (settle_reaches_throw _ _ (fun _ => None) _ _ Hnd Hko Hk) as [e' Hs].
      unfold promiseAll. simpl. rewrite Hs. discriminate.
  Qed.
End PromiseAll.

(** ** The batch scheduler *)

Lemma in_firstn_skipn : forall {A} (x : A) n i l, In x (firstn n (skipn i l)) -> In x l.
Proof.
  intros A x n i l H. rewrite <- (firstn_skipn i l). apply in_or_app. right.
  rewrite <- (firstn_skipn n (skipn i l)). apply in_or_app. left. exact H.
Qed.

Lemma in_skipn' : forall {A} (x : A) i l, In x (skipn i l) -> In x l.
Proof.
  intros A x i l H. rewrite <- (firstn_skipn i l). apply in_or_app. right. exact H.
Qed.

Lemma skipn_batch : forall {A} n i (l : list A),
  skipn i l = (firstn n (skipn i l) ++ skipn (i + n) l)%list.
Proof.
  intros A n i l. rewrite <- (firstn_skipn n (skipn i l)) at 1.
  rewrite skipn_skipn. do 2 f_equal. lia.
Qed.

Lemma filter_no_pause : forall t : list event,
  filter isPause t = [] -> filter (fun ev => negb (isPause ev)) t = t.
Proof.
  induction t as [|ev t IH]; simpl; auto.
  destruct (isPause ev); simpl; [discriminate|]. intros H. rewrite IH; auto.
Qed.

Lemma filter_pause_concat : forall {A R} (task : A -> M R) l,
  (forall x, In x l -> filter isPause (fst (task x)) = []) ->
  filter isPause (List.concat (map (fun x => fst (task x)) l)) = [].
Proof.
  intros A R task l. induction l as [|x l IH]; simpl; intros H; auto.
  rewrite filter_app, H, IH; auto.
Qed.

(** Pause count: one per batch but the last. *)
Lemma pause_count_step : forall n i B, 0 < B -> i < n -> i + B < n ->
  S ((n - (i + B) - 1) / B) = (n - i - 1) / B.
Proof.
  intros n i B HB Hi Hi2.
  replace (n - i - 1) with ((n - (i + B) - 1) + 1 * B) by lia.
  rewrite Nat.div_add by lia. lia.
Qed.

Section BatchLoopProofs.
Context {A R : Type}.
Variable B : nat.
Variable order : nat -> nat -> list nat.
Variable task : A -> M R.
Variable entries : list A.
Hypothesis HB : 0 < B.
Hypothesis Horder : ValidOrder order.

  Section Success.
Variable g : A -> R.
Hypothesis Htask : forall x, In x entries -> snd (task x) = Ok (g x).
Hypothesis Hquiet : forall x, In x entries -> filter isPause (fst (task x)) = [].

    (** From position [i] on, the loop returns the values of the remaining
        items in order, pauses [(N - i - 1) / B] times, and besides the
        pauses emits the items' own events in order. *)
Lemma batchLoop_ok : forall fuel i acc,
      List.length entries - i < fuel ->
      snd (batchLoop B order task entries fuel i acc) = Ok (acc ++ map g (skipn i entries))%list /\
      pauses (fst (batchLoop B order task entries fuel i acc)) = (List.length entries - i - 1) / B /\
      filter (fun ev => negb (isPause ev)) (fst (batchLoop B order task entries fuel i acc)) =
        List.concat (map (fun x => fst (task x)) (skipn i entries)).
    Proof.
      induction fuel as [|fuel IH]; intros i acc Hf; [lia|].
      cbn [batchLoop].
      destruct (Nat.ltb i (List.length entries)) eqn:Hi.
      - apply Nat.ltb_lt in Hi.
        pose proof (skipn_batch B i entries) as Hsplit.
        set (batch := firstn B (skipn i entries)) in *.
        assert (Hin : forall x, In x batch -> In x entries)
          by (intros x Hx; eapply in_firstn_skipn; eauto).
        assert (Hb : map snd (map task batch) = map Ok (map g batch)).
        { rewrite !map_map. apply map_ext_in. intros x Hx. apply Htask; auto. }
        rewrite (promiseAll_ok _ _ _ Hb) by (rewrite length_map; apply Horder).
        rewrite bind_ok. cbn beta.
        assert (Hq : filter isPause (List.concat (map fst (map task batch))) = []).
        { rewrite map_map. apply filter_pause_concat. auto. }
        destruct (IH (i + B) (acc ++ map g batch)%list) as [H1 [H2 H3]]; [lia|].
        unfold pauses in *.
        destruct (Nat.ltb (i + B) (List.length entries)) eqn:Hi2;
          unfold emit, ret; rewrite bind_ok; cbn [fst snd];
          rewrite H1, !filter_app, Hq, H3, filter_no_pause by exact Hq;
          rewrite Hsplit, !map_app, app_assoc, concat_app, map_map; simpl;
          (split; [reflexivity| split; [|reflexivity]]).
        + simpl. rewrite H2.
          apply pause_count_step; auto. apply Nat.ltb_lt; auto.
        + apply Nat.ltb_ge in Hi2. simpl. rewrite H2.
          rewrite !Nat.div_small; lia.
      - apply Nat.ltb_ge in Hi. rewrite skipn_all2 by lia. simpl.
        rewrite app_nil_r. repeat split; auto.
        replace (List.length entries - i - 1) with 0 by lia.
        rewrite Nat.Div0.div_0_l. reflexivity.
    Qed.
  End Success.

  (** An error thrown out of the loop is the error of one of the items. *)
Lemma batchLoop_throw_from_item : forall fuel i acc e,
    snd (batchLoop B order task entries fuel i acc) = Throw e ->
    exists x, In x entries /\ snd (task x) = Throw e.
  Proof.
    induction fuel as [|fuel IH]; intros i acc e; cbn [batchLoop]; [discriminate|].
    destruct (Nat.ltb i (List.length entries)); [|discriminate].
    rewrite bind_snd.
    destruct (snd (promiseAll _ _)) as [vs|e'|] eqn:Hp; [| |discriminate].
    - rewrite bind_snd.
      destruct (Nat.ltb (i + B) (List.length entries)); simpl; apply IH.
    - intros H. inversion H; subst.
      apply promiseAll_throw_in in Hp. rewrite map_map in Hp.
      apply in_map_iff in Hp. destruct Hp as (x & Hx & Hin).
      exists x. split; auto. eapply in_firstn_skipn; eauto.
  Qed.

  (** If an item of the rest throws, and no item hangs, the loop throws. *)
Lemma batchLoop_throws : forall fuel i acc x e,
    List.length entries - i < fuel ->
    (forall y, In y entries -> snd (task y) <> Diverge) ->
    In x (skipn i entries) -> snd (task x) = Throw e ->
    exists e', snd (batchLoop B order task entries fuel i acc) = Throw e'.
  Proof.
    induction fuel as [|fuel IH]; intros i acc x e Hf Hnd Hx He; [lia|].
    cbn [batchLoop].
    assert (Hi : i < List.length entries).
    { destruct (Nat.lt_ge_cases i (List.length entries)) as [|Hge]; auto.
      rewrite skipn_all2 in Hx by lia. contradiction. }
    apply Nat.ltb_lt in Hi. rewrite Hi. apply Nat.ltb_lt in Hi.
    rewrite bind_snd.
    pose proof (skipn_batch B i entries) as Hsplit.
    set (batch := firstn B (skipn i entries)) in *.
    assert (Hin : forall y, In y batch -> In y entries)
      by (intros y Hy; eapply in_firstn_skipn; eauto).
    assert (Hnd' : forall o, In o (map snd (map task batch)) -> o <> Diverge).
    { intros o Ho. rewrite map_map in Ho. apply in_map_iff in Ho.
      destruct Ho as (y & <- & Hy). auto. }
    assert (Hperm : Permutation (order i (List.length batch))
                      (seq 0 (List.length (map task batch))))
      by (rewrite length_map; apply Horder).
    rewrite Hsplit in Hx. apply in_app_or in Hx. destruct Hx as [Hx|Hx].
    - apply In_nth_error in Hx. destruct Hx as [k Hk].
      assert (Hk' : nth_error (map snd (map task batch)) k = Some (Throw e)).
      { rewrite map_map, nth_error_map, Hk. simpl. rewrite He. reflexivity. }
      assert (Hko : In k (order i (List.length batch))).
      { apply (Permutation_in _ (Permutation_sym Hperm)). apply in_seq.
        rewrite length_map. split; [lia|]. apply nth_error_Some. congruence. }
      destruct (settle_reaches_throw _ _ (fun _ => None) _ _ Hnd' Hko Hk') as [e' Hs].
      exists e'. unfold promiseAll. simpl. rewrite Hs. reflexivity.
    - destruct (snd (promiseAll (order i (List.length batch)) (map task batch)))
        as [vs|e'|] eqn:Hp.
      + rewrite bind_snd.
        destruct (Nat.ltb (i + B) (List.length entries)); simpl; eapply IH; eauto; lia.
      + eauto.
      + exfalso. revert Hp. apply promiseAll_not_diverge; auto.
  Qed.
End BatchLoopProofs.

Lemma runBatched_ok : forall {A R} B order (task : A -> M R) entries (g : A -> R),
  0 < B -> ValidOrder order ->
  (forall x, In x entries -> snd (task x) = Ok (g x)) ->
  (forall x, In x entries -> filter isPause (fst (task x)) = []) ->
  snd (runBatched B order task entries) = Ok (map g entries) /\
  pauses (fst (runBatched B order task entries)) = (List.length entries - 1) / B /\
  filter (fun ev => negb (isPause ev)) (fst (runBatched B order task entries)) =
    List.concat (map (fun x => fst (task x)) entries).
Proof.
  intros A R B order task entries g HB Ho Ht Hq. unfold runBatched.
  destruct (batchLoop_ok B order task entries HB Ho g Ht Hq (S (List.length entries)) 0 [])
    as (H1 & H2 & H3); [lia|].
  rewrite Nat.sub_0_r in H2. simpl in *. auto.
Qed.

(** With enough fuel and no hanging request, the loop settles. *)
Lemma batchLoop_not_diverge : forall {A R} B order (task : A -> M R) entries,
  0 < B -> ValidOrder order ->
  (forall y, In y entries -> snd (task y) <> Diverge) ->
  forall fuel i acc, List.length entries - i < fuel ->
  snd (batchLoop B order task entries fuel i acc) <> Diverge.
Proof.
  intros A R B order task entries HB Ho Hnd.
  induction fuel as [|fuel IH]; intros i acc Hf; [lia|]. cbn [batchLoop].
  destruct (Nat.ltb i (List.length entries)) eqn:Hi; [|discriminate].
  apply Nat.ltb_lt in Hi. rewrite bind_snd.
  set (batch := firstn B (skipn i entries)).
  assert (Hnd' : forall o, In o (map snd (map task batch)) -> o <> Diverge).
  { intros o Ho'. rewrite map_map in Ho'. apply in_map_iff in Ho'.
    destruct Ho' as (y & <- & Hy). apply Hnd. eapply in_firstn_skipn; eauto. }
  pose proof (promiseAll_not_diverge (map task batch) (order i (List.length batch)) Hnd')
    as Hp.
  destruct (snd (promiseAll _ _)) as [vs|e|]; [|discriminate|].
  - rewrite bind_snd. destruct (Nat.ltb (i + B) (List.length entries)); simpl; apply IH; lia.
  - exfalso. apply Hp; auto. rewrite length_map. apply Ho.
Qed.

(** Every event of the loop is a pause or an event of one of the items. *)
Lemma batchLoop_events : forall {A R} B order (task : A -> M R) entries fuel i acc ev,
  In ev (fst (batchLoop B order task entries fuel i acc)) ->
  isPause ev = true \/ exists x, In x entries /\ In ev (fst (task x)).
Proof.
  intros A R B order task entries.
  induction fuel as [|fuel IH]; intros i acc ev; cbn [batchLoop]; [simpl; tauto|].
  destruct (Nat.ltb i (List.length entries)); [|simpl; tauto].
  rewrite bind_fst. intros Hin. apply in_app_or in Hin. destruct Hin as [Hin|Hin].
  - right. simpl in Hin. rewrite map_map in Hin. apply in_concat in Hin.
    destruct Hin as (t & Ht & Hev). apply in_map_iff in Ht. destruct Ht as (x & <- & Hx).
    exists x. split; auto. eapply in_firstn_skipn; eauto.
  - destruct (snd (promiseAll _ _)); try contradiction.
    rewrite bind_fst in Hin.
    destruct (Nat.ltb (i + B) (List.length entries)); simpl in Hin;
      [destruct Hin as [<-|Hin]; [left; reflexivity|]|]; eapply IH; eauto.
Qed.

(** ** The two per-item callbacks *)

Lemma embedTask_eq : forall svc x,
  embedTask svc x =
  ([EvEmbed (createTextRepresentation x)],
   match embeddings_create svc (createTextRepresentation x) with
   | Resolved v => Ok {| base := x; embedding := v |}
   | Rejected e => Throw e
   end).
Proof.
  intros svc x. unfold embedTask, generateEmbedding, emit.
  destruct (embeddings_create svc (createTextRepresentation x)); reflexivity.
Qed.

Lemma diffTask_eq : forall svc c,
  diffTask svc c =
  (if (similarityScore c =? 1)%float then []
   else [EvComplete (diffPrompt (c_entryA c) (c_match c))],
   Ok (diffValue svc c)).
Proof.
  intros svc c. unfold diffTask, diffValue, generateDiffSummary, catch, emit.
  destruct (similarityScore c =? 1)%float; [reflexivity|].
  destruct (chat_completions_create svc (diffPrompt (c_entryA c) (c_match c))); reflexivity.
Qed.

(** ** The two batched stages *)

Lemma embedTask_not_diverge : forall svc x, snd (embedTask svc x) <> Diverge.
Proof.
  intros svc x. rewrite embedTask_eq. simpl.
  destruct (embeddings_create svc _); discriminate.
Qed.

Lemma embedTask_quiet : forall svc x, filter isPause (fst (embedTask svc x)) = [].
Proof. intros svc x. rewrite embedTask_eq. reflexivity. Qed.

Lemma diffTask_quiet : forall svc c, filter isPause (fst (diffTask svc c)) = [].
Proof.
  intros svc c. rewrite diffTask_eq. simpl. destruct (similarityScore c =? 1)%float; reflexivity.
Qed.

Lemma embedding_stage_ok : forall B order svc entries t rs,
  0 < B -> ValidOrder order ->
  runBatched B order (embedTask svc) entries = (t, Ok rs) ->
  (forall x, In x entries ->
     exists v, embeddings_create svc (createTextRepresentation x) = Resolved v) /\
  rs = map (embedValue svc) entries /\
  pauses t = (List.length entries - 1) / B /\
  (forall x, In x entries -> snd (embedTask svc x) = Ok (embedValue svc x)).
Proof.
  intros B order svc entries t rs HB Ho Hrun.
  assert (Hres : forall x, In x entries ->
            exists v, embeddings_create svc (createTextRepresentation x) = Resolved v).
  { intros x Hx.
    destruct (embeddings_create svc (createTextRepresentation x)) as [v|e] eqn:He; eauto.
    exfalso.
    destruct (batchLoop_throws B order (embedTask svc) entries HB Ho
                (S (List.length entries)) 0 [] x e) as [e' He'].
    - lia.
    - intros y _. apply embedTask_not_diverge.
    - exact Hx.
    - rewrite embedTask_eq, He. reflexivity.
    - unfold runBatched in Hrun. rewrite Hrun in He'. discriminate. }
  assert (Hg : forall x, In x entries -> snd (embedTask svc x) = Ok (embedValue svc x)).
  { intros x Hx. destruct (Hres x Hx) as [v Hv].
    rewrite embedTask_eq. unfold embedValue. rewrite Hv. reflexivity. }
  destruct (runBatched_ok B order (embedTask svc) entries (embedValue svc) HB Ho Hg
              (fun x _ => embedTask_quiet svc x)) as (H1 & H2 & _).
  rewrite Hrun in H1, H2. simpl in H1, H2. inversion H1; subst.
  repeat split; auto.
Qed.

Lemma completionRequests_app : forall t1 t2,
  completionRequests (t1 ++ t2) = (completionRequests t1 ++ completionRequests t2)%list.
Proof. intros. unfold completionRequests. apply flat_map_app. Qed.

Lemma completionRequests_no_pauses : forall t,
  completionRequests (filter (fun ev => negb (isPause ev)) t) = completionRequests t.
Proof.
  induction t as [|ev t IH]; [reflexivity|].
  destruct ev; simpl; rewrite ?completionRequests_app; simpl; rewrite IH; reflexivity.
Qed.

Lemma diff_stage_ok : forall B order svc comparisons,
  0 < B -> ValidOrder order ->
  snd (runBatched B order (diffTask svc) comparisons) = Ok (map (diffValue svc) comparisons) /\
  pauses (fst (runBatched B order (diffTask svc) comparisons)) =
    (List.length comparisons - 1) / B /\
  completionRequests (fst (runBatched B order (diffTask svc) comparisons)) =
    map (fun c => diffPrompt (c_entryA c) (c_match c))
        (filter (fun c => negb (similarityScore c =? 1)%float) comparisons).
Proof.
  intros B order svc comparisons HB Ho.
  destruct (runBatched_ok B order (diffTask svc) comparisons (diffValue svc) HB Ho
              (fun c _ => f_equal snd (diffTask_eq svc c))
              (fun c _ => diffTask_quiet svc c)) as (H1 & H2 & H3).
  repeat split; auto.
  rewrite <- completionRequests_no_pauses, H3. clear.
  induction comparisons as [|c cs IH]; [reflexivity|].
  simpl. rewrite completionRequests_app, IH, diffTask_eq.
  destruct (similarityScore c =? 1)%float; reflexivity.
Qed.

Lemma ceil_minus_one : forall n B, 0 < B -> 0 < n -> (n - 1) / B = (n + B - 1) / B - 1.
Proof.
  intros n B HB Hn. replace (n + B - 1) with ((n - 1) + 1 * B) by lia.
  rewrite Nat.div_add by lia. lia.
Qed.

Lemma batched_result_facts : forall {A R} B (task : A -> M R) (g : A -> R) entries t rs,
  0 < B ->
  (forall x, In x entries -> snd (task x) = Ok (g x)) ->
  rs = map g entries -> pauses t = (List.length entries - 1) / B ->
  List.length rs = List.length entries /\
  (forall i x, nth_error entries i = Some x ->
     exists r, nth_error rs i = Some r /\ snd (task x) = Ok r) /\
  (List.length entries = 0 -> pauses t = 0) /\
  (0 < List.length entries -> pauses t = (List.length entries + B - 1) / B - 1).
Proof.
  intros A R B task g entries t rs HB Hg -> Hp. repeat split.
  - apply length_map.
  - intros i x Hx. exists (g x). split.
    + rewrite nth_error_map, Hx. reflexivity.
    + apply Hg. eapply nth_error_In; eauto.
  - intros H0. rewrite Hp, H0. apply Nat.Div0.div_0_l.
  - intros Hn. rewrite Hp. apply ceil_minus_one; auto.
Qed.

(** ** Claims about the batched stages *)

(** C2 (as amended): with a positive batch size [B] and whatever order
    the requests of each batch complete in, each batched stage that
    completes returns one result per input, [result[i]] being the value
    of the callback on [input[i]]; it pauses [ceil(N/B) - 1] times when
    [N >= 1], and not at all when [N = 0].  (The stages of the program
    are the case [B = BATCH_SIZE = 10].) *)
Theorem batched_stages_order_and_pauses : forall B order,
  0 < B -> ValidOrder order ->
  (forall svc entries t rs,
     runBatched B order (embedTask svc) entries = (t, Ok rs) ->
     List.length rs = List.length entries /\
     (forall i x, nth_error entries i = Some x ->
        exists r, nth_error rs i = Some r /\ snd (embedTask svc x) = Ok r) /\
     (List.length entries = 0 -> pauses t = 0) /\
     (0 < List.length entries -> pauses t = (List.length entries + B - 1) / B - 1)) /\
  (forall svc comparisons t rs,
     runBatched B order (diffTask svc) comparisons = (t, Ok rs) ->
     List.length rs = List.length comparisons /\
     (forall i c, nth_error comparisons i = Some c ->
        exists r, nth_error rs i = Some r /\ snd (diffTask svc c) = Ok r) /\
     (List.length comparisons = 0 -> pauses t = 0) /\
     (0 < List.length comparisons -> pauses t = (List.length comparisons + B - 1) / B - 1)).
Proof.
  intros B order HB Ho. split.
  - intros svc entries t rs Hrun.
    destruct (embedding_stage_ok B order svc entries t rs HB Ho Hrun) as (_ & Hrs & Hp & Hg).
    eapply batched_result_facts; eauto.
  - intros svc comparisons t rs Hrun.
    destruct (diff_stage_ok B order svc comparisons HB Ho) as (H1 & H2 & _).
    rewrite Hrun in H1, H2. simpl in H1, H2. inversion H1; subst.
    eapply batched_result_facts; eauto.
    intros c _. rewrite diffTask_eq. reflexivity.
Qed.

Lemma inOrder_valid : ValidOrder inOrder.
Proof. intros i n. apply Permutation_refl. Qed.

Lemma inReverse_valid : ValidOrder inReverse.
Proof. intros i n. unfold inReverse. apply Permutation_sym, Permutation_rev. Qed.

Lemma batched_stages_order_and_pauses_witness :
  pauses (fst (generateEmbeddingsWithBatching (stubServices answerText) inReverse
                 (sampleEntries 25))) = (25 + BATCH_SIZE - 1) / BATCH_SIZE - 1.
Proof.
  destruct (batched_stages_order_and_pauses BATCH_SIZE inReverse ltac:(vm_compute; lia)
              inReverse_valid) as [Hemb _].
  destruct (Hemb (stubServices answerText) (sampleEntries 25)
              (fst (generateEmbeddingsWithBatching (stubServices answerText) inReverse
                      (sampleEntries 25)))
              (map (embedValue (stubServices answerText)) (sampleEntries 25))
              ltac:(vm_compute; reflexivity)) as (_ & _ & _ & Hp).
  apply Hp. vm_compute. lia.
Defined.

(** C2 as stated fails for an empty input: the loop body never runs, so
    there is no pause, while [ceil(0/B) - 1 = -1]. *)
Lemma batched_stages_no_pause_for_empty_input :
  pauses (fst (generateEmbeddingsWithBatching (stubServices answerText) inOrder [])) = 0 /\
  Z.of_nat (pauses (fst (generateEmbeddingsWithBatching (stubServices answerText) inOrder []))) <>
  ((Z.of_nat (List.length ([] : list DatasetEntry)) + Z.of_nat BATCH_SIZE - 1)
     / Z.of_nat BATCH_SIZE - 1)%Z.
Proof. split; vm_compute; [reflexivity | discriminate]. Qed.

(** C3: an item whose [similarityScore] is exactly [1] resolves with
    ["No differences"] and emits no event; in the stage's result its
    [diffSummary] is ["No differences"], and the completion service is
    asked, in input order, exactly for the items whose score is not [1]. *)
Theorem identical_pairs_skip_completion : forall svc order comparisons,
  ValidOrder order ->
  (forall c, In c comparisons -> (similarityScore c =? 1)%float = true ->
     diffTask svc c = ([], Ok (comparisonResult c (Some "No differences")))) /\
  (exists rs,
     snd (generateDiffSummariesWithBatching svc order comparisons) = Ok rs /\
     forall i c, nth_error comparisons i = Some c -> (similarityScore c =? 1)%float = true ->
       exists r, nth_error rs i = Some r /\ diffSummary r = Some "No differences") /\
  completionRequests (fst (generateDiffSummariesWithBatching svc order comparisons)) =
    map (fun c => diffPrompt (c_entryA c) (c_match c))
      (filter (fun c => negb (similarityScore c =? 1)%float) comparisons).
Proof.
  intros svc order comparisons Ho.
  destruct (diff_stage_ok BATCH_SIZE order svc comparisons ltac:(unfold BATCH_SIZE; lia) Ho)
    as (H1 & _ & H3).
  split; [|split].
  - intros c _ Hc. rewrite diffTask_eq, Hc. unfold diffValue. rewrite Hc. reflexivity.
  - exists (map (diffValue svc) comparisons). split; [exact H1|].
    intros i c Hi Hc. exists (diffValue svc c). split.
    + rewrite nth_error_map, Hi. reflexivity.
    + unfold diffValue. rewrite Hc. reflexivity.
  - exact H3.
Qed.

Lemma identical_pairs_skip_completion_witness :
  completionRequests (fst (generateDiffSummariesWithBatching (stubServices answerText) inReverse
                             [sampleComparison 1%float; sampleComparison 0.5%float])) =
  [diffPrompt (profile 1 "A") (profile 2 "A2")].
Proof.
  destruct (identical_pairs_skip_completion (stubServices answerText) inReverse
              [sampleComparison 1%float; sampleComparison 0.5%float] inReverse_valid)
    as (_ & _ & H).
  rewrite H. vm_compute. reflexivity.
Defined.

(** ** The pipeline *)

Lemma reportsWritten_none : forall t,
  (forall ev, In ev t -> reportsWritten [ev] = []) -> reportsWritten t = [].
Proof.
  induction t as [|ev t IH]; intros H; [reflexivity|].
  change (ev :: t) with ([ev] ++ t)%list. unfold reportsWritten in *.
  rewrite flat_map_app. rewrite H by (left; reflexivity). apply IH.
  intros; apply H; right; auto.
Qed.

Lemma runBatched_no_report : forall {A R} B order (task : A -> M R) entries,
  (forall x ev, In ev (fst (task x)) -> reportsWritten [ev] = []) ->
  reportsWritten (fst (runBatched B order task entries)) = [].
Proof.
  intros A R B order task entries Ht. apply reportsWritten_none. intros ev Hev.
  destruct (batchLoop_events B order task entries _ _ _ ev Hev) as [Hp | (x & _ & Hx)].
  - destruct ev; try discriminate; reflexivity.
  - eapply Ht; eauto.
Qed.

Lemma embedding_stage_no_report : forall svc order entries,
  reportsWritten (fst (generateEmbeddingsWithBatching svc order entries)) = [].
Proof.
  intros svc order entries. apply runBatched_no_report.
  intros x ev Hev. rewrite embedTask_eq in Hev. destruct Hev as [<-|[]]. reflexivity.
Qed.

Lemma diff_stage_no_report : forall svc order comparisons,
  reportsWritten (fst (generateDiffSummariesWithBatching svc order comparisons)) = [].
Proof.
  intros svc order comparisons. apply runBatched_no_report.
  intros c ev Hev. rewrite diffTask_eq in Hev. simpl in Hev.
  destruct (similarityScore c =? 1)%float; [contradiction|].
  destruct Hev as [<-|[]]. reflexivity.
Qed.

Lemma findBestMatch_ok_in : forall entryA l r,
  findBestMatch entryA l = Ok r -> In (match_ r) l.
Proof.
  intros entryA l r. unfold findBestMatch.
  destruct (findBestMatch_loop entryA None (-1)%float l) as [bm bs] eqn:Hl.
  destruct bm as [m|]; intros H; inversion H; subst; clear H; simpl.
  destruct (findBestMatch_loop_spec _ _ _ _ _ _ Hl) as [[Hc _] | (m' & Hm & Hin & _)].
  - discriminate.
  - inversion Hm; subst. exact Hin.
Qed.

Lemma matchStage_cons : forall eB x rest,
  matchStage eB (x :: rest) =
  match findBestMatch x eB with
  | Ok r =>
      let '(t, o) := matchStage eB rest in
      (t, match o with
          | Ok cs => Ok ({| c_entryA := stripEmbedding x; c_match := stripEmbedding (match_ r);
                            similarityScore := score r |} :: cs)
          | Throw e => Throw e
          | Diverge => Diverge
          end)
  | Throw e => ([], Throw e)
  | Diverge => ([], Diverge)
  end.
Proof.
  intros eB x rest. unfold matchStage. simpl.
  destruct (findBestMatch x eB); try reflexivity.
  simpl. destruct (mapM _ rest) as [t [cs|e|]]; simpl; rewrite ?app_nil_r; reflexivity.
Qed.

Lemma matchStage_ok : forall eB eA t comps,
  matchStage eB eA = (t, Ok comps) ->
  t = [] /\ map c_entryA comps = map stripEmbedding eA /\
  forall c, In c comps -> exists m, In m eB /\ c_match c = stripEmbedding m.
Proof.
  intros eB eA. induction eA as [|x rest IH]; intros t comps H.
  - inversion H; subst. simpl. repeat split; intros; contradiction.
  - rewrite matchStage_cons in H.
    destruct (findBestMatch x eB) as [r|e|] eqn:Hf; try discriminate.
    destruct (matchStage eB rest) as [t' [cs|e|]]; inversion H; subst.
    destruct (IH t cs eq_refl) as (-> & Hmap & Hin).
    repeat split; simpl; [rewrite Hmap; reflexivity|].
    intros c [<-|Hc]; auto.
    exists (match_ r). split; [eapply findBestMatch_ok_in; eauto | reflexivity].
Qed.

Lemma matchStage_trace : forall eB eA, fst (matchStage eB eA) = [].
Proof.
  intros eB eA. induction eA as [|x rest IH]; [reflexivity|].
  rewrite matchStage_cons. destruct (findBestMatch x eB); try reflexivity.
  destruct (matchStage eB rest) as [t o]. simpl in *. destruct o; exact IH.
Qed.

(** The report assembled from the stages' results. *)
Lemma compareDatasets_after_matching :
  forall svc timing now datasetA datasetB tA eA tB eB tM comps,
  generateEmbeddingsWithBatching svc (orderA timing) datasetA = (tA, Ok eA) ->
  generateEmbeddingsWithBatching svc (orderB timing) datasetB = (tB, Ok eB) ->
  matchStage eB eA = (tM, Ok comps) ->
  compareDatasets svc timing now datasetA datasetB =
  ((tA ++ tB ++ tM ++ fst (generateDiffSummariesWithBatching svc (orderDiff timing) comps) ++
    match snd (generateDiffSummariesWithBatching svc (orderDiff timing) comps) with
    | Ok rs => [EvWrite "comparison_report.json"
                  {| comparisonDate := now; totalComparisons := List.length rs;
                     results := rs |}]
    | _ => []
    end)%list,
   match snd (generateDiffSummariesWithBatching svc (orderDiff timing) comps) with
   | Ok _ => Ok tt
   | Throw e => Throw e
   | Diverge => Diverge
   end).
Proof.
  intros svc timing now datasetA datasetB tA eA tB eB tM comps HA HB HM.
  unfold compareDatasets. rewrite HA, bind_ok. cbn beta. rewrite HB, bind_ok. cbn beta.
  rewrite HM, bind_ok. cbn beta.
  destruct (generateDiffSummariesWithBatching svc (orderDiff timing) comps) as [tD [rs|e|]];
    simpl; rewrite ?app_nil_r, ?app_assoc; reflexivity.
Qed.

Lemma stripEmbedding_embedValue : forall svc x, stripEmbedding (embedValue svc x) = x.
Proof. intros svc [i n ti su sk]. reflexivity. Qed.

Lemma BATCH_SIZE_pos : 0 < BATCH_SIZE.
Proof. unfold BATCH_SIZE. lia. Qed.

Lemma trace_reports_app : forall t1 t2,
  reportsWritten (t1 ++ t2) = (reportsWritten t1 ++ reportsWritten t2)%list.
Proof. intros. unfold reportsWritten. apply flat_map_app. Qed.

Lemma diffValue_fields : forall svc c,
  cr_entryA (diffValue svc c) = c_entryA c /\ cr_match (diffValue svc c) = c_match c /\
  cr_similarityScore (diffValue svc c) = similarityScore c.
Proof. intros. repeat split. Qed.

(** ** Claims about the pipeline *)

(** C4: a rejected completion request is caught: [generateDiffSummary]
    resolves with ["Error generating diff summary"].  Once the entries are
    embedded and matched, the run goes on to write its report, in which
    every non-identical result whose request was rejected carries that
    text; in particular when every completion request fails, every
    non-identical result does. *)
Theorem completion_failures_substituted :
  forall svc timing now datasetA datasetB tA eA tB eB tM comps,
  ValidTiming timing ->
  generateEmbeddingsWithBatching svc (orderA timing) datasetA = (tA, Ok eA) ->
  generateEmbeddingsWithBatching svc (orderB timing) datasetB = (tB, Ok eB) ->
  matchStage eB eA = (tM, Ok comps) ->
  (forall a b e, chat_completions_create svc (diffPrompt a b) = Rejected e ->
     generateDiffSummary svc a b =
       ([EvComplete (diffPrompt a b)], Ok (Some "Error generating diff summary"))) /\
  exists t r, compareDatasets svc timing now datasetA datasetB = (t, Ok tt) /\
    reportsWritten t = [r] /\
    List.length (results r) = List.length datasetA /\
    forall res, In res (results r) ->
      (cr_similarityScore res =? 1)%float = false ->
      (exists e, chat_completions_create svc (diffPrompt (cr_entryA res) (cr_match res))
                 = Rejected e) ->
      diffSummary res = Some "Error generating diff summary".
Proof.
  intros svc timing now datasetA datasetB tA eA tB eB tM comps (HoA & HoB & HoD) HA HB HM.
  split.
  { intros a b e He. unfold generateDiffSummary, catch, emit. simpl. rewrite He. reflexivity. }
  rewrite (compareDatasets_after_matching svc timing now datasetA datasetB tA eA tB eB tM comps
             HA HB HM).
  destruct (diff_stage_ok BATCH_SIZE (orderDiff timing) svc comps BATCH_SIZE_pos HoD)
    as (HD & _ & _).
  change (runBatched BATCH_SIZE (orderDiff timing) (diffTask svc) comps)
    with (generateDiffSummariesWithBatching svc (orderDiff timing) comps) in HD.
  rewrite HD.
  eexists; eexists; split; [reflexivity|].
  pose proof (embedding_stage_no_report svc (orderA timing) datasetA) as NA.
  pose proof (embedding_stage_no_report svc (orderB timing) datasetB) as NB.
  pose proof (diff_stage_no_report svc (orderDiff timing) comps) as ND.
  pose proof (matchStage_trace eB eA) as NM.
  rewrite HA in NA. rewrite HB in NB. rewrite HM in NM. simpl in NA, NB, NM. subst tM.
  split.
  { rewrite !trace_reports_app, NA, NB, ND. reflexivity. }
  destruct (embedding_stage_ok BATCH_SIZE (orderA timing) svc datasetA tA eA BATCH_SIZE_pos
              HoA HA) as (_ & -> & _ & _).
  destruct (matchStage_ok _ _ _ _ HM) as (_ & Hmap & _).
  split.
  { simpl. rewrite length_map.
    apply (f_equal (@List.length _)) in Hmap. rewrite !length_map in Hmap. exact Hmap. }
  intros res Hres Hs [e He]. simpl in Hres. apply in_map_iff in Hres.
  destruct Hres as (c & <- & _). simpl in Hs, He.
  unfold diffValue. simpl. rewrite Hs, He. reflexivity.
Qed.

Lemma completion_failures_substituted_witness :
  exists t r,
    compareDatasets (distinctServices answerFail) (sameTiming inReverse) "now"
      datasetA0 datasetB0 = (t, Ok tt) /\
    reportsWritten t = [r] /\
    List.length (results r) = List.length datasetA0 /\
    forall res, In res (results r) ->
      (cr_similarityScore res =? 1)%float = false ->
      (exists e, chat_completions_create (distinctServices answerFail)
                   (diffPrompt (cr_entryA res) (cr_match res)) = Rejected e) ->
      diffSummary res = Some "Error generating diff summary".
Proof.
  refine (proj2 (completion_failures_substituted (distinctServices answerFail)
    (sameTiming inReverse) "now" datasetA0 datasetB0
    (fst (generateEmbeddingsWithBatching (distinctServices answerFail) inReverse datasetA0))
    (okValue [] (generateEmbeddingsWithBatching (distinctServices answerFail) inReverse datasetA0))
    (fst (generateEmbeddingsWithBatching (distinctServices answerFail) inReverse datasetB0))
    (okValue [] (generateEmbeddingsWithBatching (distinctServices answerFail) inReverse datasetB0))
    [] (okValue [] (matchStage
          (okValue [] (generateEmbeddingsWithBatching (distinctServices answerFail) inReverse datasetB0))
          (okValue [] (generateEmbeddingsWithBatching (distinctServices answerFail) inReverse datasetA0))))
    _ _ _ _)).
  - split; [|split]; apply inReverse_valid.
  - vm_compute. reflexivity.
  - vm_compute. reflexivity.
  - vm_compute. reflexivity.
Defined.

Lemma embedding_stage_throws : forall svc order entries x e,
  ValidOrder order -> In x entries ->
  embeddings_create svc (createTextRepresentation x) = Rejected e ->
  exists e', snd (generateEmbeddingsWithBatching svc order entries) = Throw e'.
Proof.
  intros svc order entries x e Ho Hx He.
  apply (batchLoop_throws BATCH_SIZE order (embedTask svc) entries BATCH_SIZE_pos Ho
           (S (List.length entries)) 0 [] x e); [lia| | exact Hx |].
  - intros y _. apply embedTask_not_diverge.
  - rewrite embedTask_eq, He. reflexivity.
Qed.

Lemma embedding_stage_throw_origin : forall svc order entries e,
  snd (generateEmbeddingsWithBatching svc order entries) = Throw e ->
  exists y, In y entries /\ embeddings_create svc (createTextRepresentation y) = Rejected e.
Proof.
  intros svc order entries e H.
  destruct (batchLoop_throw_from_item BATCH_SIZE order (embedTask svc) entries _ _ _ e H)
    as (y & Hy & Hte).
  exists y. split; auto. rewrite embedTask_eq in Hte. simpl in Hte.
  destruct (embeddings_create svc (createTextRepresentation y)); congruence.
Qed.

Lemma embedding_stage_not_diverge : forall svc order entries,
  ValidOrder order -> snd (generateEmbeddingsWithBatching svc order entries) <> Diverge.
Proof.
  intros svc order entries Ho.
  apply (batchLoop_not_diverge BATCH_SIZE order (embedTask svc) entries BATCH_SIZE_pos Ho);
    [intros y _; apply embedTask_not_diverge | lia].
Qed.

(** C5: when the embedding request of an entry of either dataset is
    rejected, the embedding stage of that dataset does not catch the
    error: it throws, and so does the whole run, with the rejection error
    of an embedding request, and no report is written. *)
Theorem embedding_failure_aborts_run : forall svc timing now datasetA datasetB x e,
  ValidTiming timing ->
  In x (datasetA ++ datasetB) ->
  embeddings_create svc (createTextRepresentation x) = Rejected e ->
  (In x datasetA ->
     exists e', snd (generateEmbeddingsWithBatching svc (orderA timing) datasetA) = Throw e') /\
  (In x datasetB ->
     exists e', snd (generateEmbeddingsWithBatching svc (orderB timing) datasetB) = Throw e') /\
  (exists e', snd (compareDatasets svc timing now datasetA datasetB) = Throw e' /\
     exists y, In y (datasetA ++ datasetB) /\
       embeddings_create svc (createTextRepresentation y) = Rejected e') /\
  reportsWritten (fst (compareDatasets svc timing now datasetA datasetB)) = [].
Proof.
  intros svc timing now datasetA datasetB x e (HoA & HoB & HoD) Hx He.
  assert (SA : In x datasetA ->
     exists e', snd (generateEmbeddingsWithBatching svc (orderA timing) datasetA) = Throw e')
    by (intros; eapply embedding_stage_throws; eauto).
  assert (SB : In x datasetB ->
     exists e', snd (generateEmbeddingsWithBatching svc (orderB timing) datasetB) = Throw e')
    by (intros; eapply embedding_stage_throws; eauto).
  split; [exact SA|]. split; [exact SB|].
  pose proof (embedding_stage_no_report svc (orderA timing) datasetA) as NA.
  pose proof (embedding_stage_no_report svc (orderB timing) datasetB) as NB.
  pose proof (embedding_stage_not_diverge svc (orderA timing) datasetA HoA) as DA.
  pose proof (embedding_stage_not_diverge svc (orderB timing) datasetB HoB) as DB.
  pose proof (embedding_stage_throw_origin svc (orderA timing) datasetA) as OA.
  pose proof (embedding_stage_throw_origin svc (orderB timing) datasetB) as OB.
  unfold compareDatasets.
  destruct (generateEmbeddingsWithBatching svc (orderA timing) datasetA) as [tA [eA|eA'|]] eqn:HA;
    simpl in NA, DA, OA; [| |congruence].
  - (* the first stage completes: the entry is in the second dataset *)
    assert (HxB : In x datasetB).
    { apply in_app_or in Hx. destruct Hx as [Hx|Hx]; auto.
      destruct (SA Hx) as [e' He']. simpl in He'. discriminate. }
    rewrite bind_ok. cbn beta.
    destruct (generateEmbeddingsWithBatching svc (orderB timing) datasetB) as [tB [eB|eB'|]] eqn:HB;
      simpl in NB, DB, OB; [| |congruence].
    + destruct (SB HxB) as [e' He']. simpl in He'. discriminate.
    + simpl. split.
      * exists eB'. split; auto. destruct (OB eB' eq_refl) as (y & Hy & Hye).
        exists y. split; auto. apply in_or_app; auto.
      * rewrite ?app_nil_r, trace_reports_app, NA, NB. reflexivity.
  - simpl. split; [|exact NA].
    exists eA'. split; auto. destruct (OA eA' eq_refl) as (y & Hy & Hye).
    exists y. split; auto. apply in_or_app; auto.
Qed.

Lemma embedding_failure_aborts_run_witness :
  (exists e', snd (compareDatasets rejectingServices (sameTiming inReverse) "now"
                     datasetA0 datasetB0) = Throw e' /\
     exists y, In y (datasetA0 ++ datasetB0) /\
       embeddings_create rejectingServices (createTextRepresentation y) = Rejected e') /\
  reportsWritten (fst (compareDatasets rejectingServices (sameTiming inReverse) "now"
                         datasetA0 datasetB0)) = [].
Proof.
  refine (proj2 (proj2 (embedding_failure_aborts_run rejectingServices
     (sameTiming inReverse) "now" datasetA0 datasetB0 (profile 4 "D")
     "503 Service Unavailable" _ _ _))).
  - split; [|split]; apply inReverse_valid.
  - simpl. auto 10.
  - reflexivity.
Defined.

(** C8: a run that completes writes exactly one report; its
    [totalComparisons] is the length of its [results]; the results
    follow the source dataset, one per source entry, whose [entryA] is
    that source entry itself; and every [match] is an entry of the target
    dataset.  Both are [DatasetEntry] records, which have no [embedding]
    field. *)
Theorem report_mirrors_source : forall svc timing now datasetA datasetB t,
  ValidTiming timing ->
  compareDatasets svc timing now datasetA datasetB = (t, Ok tt) ->
  exists r, reportsWritten t = [r] /\
    totalComparisons r = List.length (results r) /\
    map cr_entryA (results r) = datasetA /\
    (forall res, In res (results r) -> In (cr_match res) datasetB).
Proof.
  intros svc timing now datasetA datasetB t (HoA & HoB & HoD) H.
  destruct (generateEmbeddingsWithBatching svc (orderA timing) datasetA) as [tA [eA|e|]] eqn:HA;
    [| unfold compareDatasets in H; rewrite HA in H; simpl in H; discriminate ..].
  destruct (generateEmbeddingsWithBatching svc (orderB timing) datasetB) as [tB [eB|e|]] eqn:HB;
    [| unfold compareDatasets in H; rewrite HA in H; simpl in H; rewrite HB in H;
       simpl in H; discriminate ..].
  destruct (matchStage eB eA) as [tM [comps|e|]] eqn:HM;
    [| unfold compareDatasets in H; rewrite HA in H; simpl in H; rewrite HB in H;
       simpl in H; rewrite HM in H; simpl in H; discriminate ..].
  rewrite (compareDatasets_after_matching svc timing now datasetA datasetB tA eA tB eB tM comps
             HA HB HM) in H.
  destruct (diff_stage_ok BATCH_SIZE (orderDiff timing) svc comps BATCH_SIZE_pos HoD)
    as (HD & _ & _).
  change (runBatched BATCH_SIZE (orderDiff timing) (diffTask svc) comps)
    with (generateDiffSummariesWithBatching svc (orderDiff timing) comps) in HD.
  rewrite HD in H. inversion H; subst t; clear H.
  eexists; split.
  { pose proof (embedding_stage_no_report svc (orderA timing) datasetA) as NA.
    pose proof (embedding_stage_no_report svc (orderB timing) datasetB) as NB.
    pose proof (diff_stage_no_report svc (orderDiff timing) comps) as ND.
    pose proof (matchStage_trace eB eA) as NM.
    rewrite HA in NA. rewrite HB in NB. rewrite HM in NM. simpl in NA, NB, NM. subst tM.
    rewrite !trace_reports_app, NA, NB, ND. reflexivity. }
  destruct (embedding_stage_ok BATCH_SIZE (orderA timing) svc datasetA tA eA BATCH_SIZE_pos
              HoA HA) as (_ & -> & _ & _).
  destruct (embedding_stage_ok BATCH_SIZE (orderB timing) svc datasetB tB eB BATCH_SIZE_pos
              HoB HB) as (_ & -> & _ & _).
  destruct (matchStage_ok _ _ _ _ HM) as (_ & Hmap & Hin).
  simpl. split; [reflexivity|]. split.
  - rewrite map_map. transitivity (map c_entryA comps); [apply map_ext; reflexivity|].
    rewrite Hmap, map_map.
    erewrite map_ext; [apply map_id|]. intros x. apply stripEmbedding_embedValue.
  - intros res Hres. apply in_map_iff in Hres. destruct Hres as (c & <- & Hc). simpl.
    destruct (Hin c Hc) as (m & Hm & ->). apply in_map_iff in Hm.
    destruct Hm as (y & <- & Hy). rewrite stripEmbedding_embedValue. exact Hy.
Qed.

Lemma report_mirrors_source_witness :
  exists r, reportsWritten (fst (compareDatasets (distinctServices answerText)
                                   (sameTiming inReverse) "now" datasetA0 datasetB0)) = [r] /\
    totalComparisons r = List.length (results r) /\
    map cr_entryA (results r) = datasetA0 /\
    (forall res, In res (results r) -> In (cr_match res) datasetB0).
Proof.
  apply (report_mirrors_source (distinctServices answerText) (sameTiming inReverse) "now"
           datasetA0 datasetB0).
  - split; [|split]; apply inReverse_valid.
  - vm_compute. reflexivity.
Defined.

(** C10: a completion request that resolves with no message content
    ([null] or [undefined]) gives a [null] summary: neither
    ["No differences"] (the score is not [1]) nor the error text. *)
Theorem absent_content_gives_null_summary : forall svc c,
  (similarityScore c =? 1)%float = false ->
  chat_completions_create svc (diffPrompt (c_entryA c) (c_match c)) = Resolved None ->
  generateDiffSummary svc (c_entryA c) (c_match c) =
    ([EvComplete (diffPrompt (c_entryA c) (c_match c))], Ok None) /\
  diffTask svc c =
    ([EvComplete (diffPrompt (c_entryA c) (c_match c))], Ok (comparisonResult c None)).
Proof.
  intros svc c Hs Hc. split.
  - unfold generateDiffSummary, catch, emit. simpl. rewrite Hc. reflexivity.
  - rewrite diffTask_eq, Hs. unfold diffValue. rewrite Hs, Hc. reflexivity.
Qed.

Lemma absent_content_gives_null_summary_witness :
  diffTask (stubServices answerNull) (sampleComparison 0.5%float) =
    ([EvComplete (diffPrompt (profile 1 "A") (profile 2 "A2"))],
     Ok (comparisonResult (sampleComparison 0.5%float) None)).
Proof.
  apply (proj2 (absent_content_gives_null_summary (stubServices answerNull)
                  (sampleComparison 0.5%float) eq_refl eq_refl)).
Defined.

(** Content that is present but empty is kept: [("").trim() ?? null]
    is the empty string, not [null]. *)
Lemma empty_content_gives_empty_summary : forall svc a b,
  chat_completions_create svc (diffPrompt a b) = Resolved (Some "") ->
  generateDiffSummary svc a b = ([EvComplete (diffPrompt a b)], Ok (Some "")).
Proof.
  intros svc a b Hc. unfold generateDiffSummary, catch, emit. simpl. rewrite Hc. reflexivity.
Qed.

(** * Further properties of the code *)

(** ** More on the ordering of binary64 values *)

Lemma not_nan_SF : forall x : float, is_nan x = false -> Prim2SF x <> S754_nan.
Proof.
  intros x. unfold is_nan. rewrite eqb_spec. intros H He. rewrite He in H. simpl in H.
  discriminate.
Qed.

Lemma SFltb_irrefl : forall a, SFltb a a = false.
Proof.
  unfold SFltb. intros [sa|sa| |sa ma ea]; simpl; try destruct sa; simpl; auto;
  rewrite Z.compare_refl;
  change (Pos.compare_cont Eq ma ma) with (Pos.compare ma ma);
  rewrite Pos.compare_refl; reflexivity.
Qed.

Lemma SFltb_le_lt : forall a b c,
  a <> S754_nan -> b <> S754_nan ->
  SFltb b a = false -> SFltb b c = true -> SFltb a c = true.
Proof.
  unfold SFltb.
  intros [sa|sa| |sa ma ea] [sb|sb| |sb mb eb] [sc|sc| |sc mc ec] Ha Hb;
  try congruence; simpl;
  try destruct sa; try destruct sb; try destruct sc; simpl; try discriminate; auto;
  repeat match goal with
  | |- context [Z.compare ?x ?y] => destruct (Z.compare_spec x y)
  | |- context [Pos.compare_cont Eq ?x ?y] =>
      change (Pos.compare_cont Eq x y) with (Pos.compare x y);
      destruct (Pos.compare_spec x y)
  end; simpl; intros; subst; try discriminate; auto; try lia.
Qed.

Lemma ltb_irrefl : forall x : float, (x <? x)%float = false.
Proof. intros x. rewrite ltb_spec. apply SFltb_irrefl. Qed.

Lemma ltb_asym : forall x y : float, (x <? y)%float = true -> (y <? x)%float = false.
Proof.
  intros x y H. destruct (y <? x)%float eqn:H'; auto.
  pose proof (ltb_trans _ _ _ H H') as Hx. rewrite ltb_irrefl in Hx. discriminate.
Qed.

(** For numbers that are not NaN, [!(b < a)] means [a <= b]. *)
Lemma ltb_le_lt : forall a b c : float,
  is_nan a = false -> is_nan b = false ->
  (b <? a)%float = false -> (b <? c)%float = true -> (a <? c)%float = true.
Proof.
  intros a b c Ha Hb. rewrite !ltb_spec.
  apply SFltb_le_lt; apply not_nan_SF; assumption.
Qed.

(** ** The matcher *)

Lemma findBestMatch_loop_some : forall entryA l m bs bm' bs',
  findBestMatch_loop entryA (Some m) bs l = (bm', bs') -> bm' <> None.
Proof.
  intros entryA l m bs bm' bs' H.
  destruct (findBestMatch_loop_spec _ _ _ _ _ _ H) as [[-> _]|(m' & -> & _)]; discriminate.
Qed.

(** A scan that ends without a best match saw no target above the
    initial score. *)
Lemma findBestMatch_loop_none : forall entryA l bs bs',
  findBestMatch_loop entryA None bs l = (None, bs') ->
  forall x, In x l -> (bs <? cosineSimilarity (embedding entryA) (embedding x))%float = false.
Proof.
  intros entryA l. induction l as [|b l IH]; simpl; intros bs bs' H x Hx; [contradiction|].
  destruct (bs <? cosineSimilarity (embedding entryA) (embedding b))%float eqn:Hlt.
  - exfalso. eapply findBestMatch_loop_some; eauto.
  - destruct Hx as [<-|Hx]; [exact Hlt|]. eapply IH; eauto.
Qed.

(** No scanned target is strictly above the final score. *)
Lemma findBestMatch_loop_max : forall entryA l bm bs bm' bs',
  findBestMatch_loop entryA bm bs l = (bm', bs') ->
  forall x, In x l -> (bs' <? cosineSimilarity (embedding entryA) (embedding x))%float = false.
Proof.
  intros entryA l. induction l as [|b l IH]; simpl; intros bm bs bm' bs' H x Hx; [contradiction|].
  destruct (bs <? cosineSimilarity (embedding entryA) (embedding b))%float eqn:Hlt;
    (destruct Hx as [<-|Hx]; [|eapply IH; eauto]);
    destruct (findBestMatch_loop_spec _ _ _ _ _ _ H) as [[_ ->]|(m & _ & _ & _ & Hlt')].
  - apply ltb_irrefl.
  - apply ltb_asym. exact Hlt'.
  - exact Hlt.
  - destruct (bs' <? cosineSimilarity (embedding entryA) (embedding b))%float eqn:Hc; auto.
    rewrite (ltb_trans _ _ _ Hlt' Hc) in Hlt. discriminate.
Qed.

(** Every target scanned before the final best one is strictly below the
    final score, or NaN. *)
Lemma findBestMatch_loop_first : forall entryA l bm bs bm' bs',
  is_nan bs = false ->
  findBestMatch_loop entryA bm bs l = (bm', bs') ->
  (bm' = bm /\ bs' = bs) \/
  exists pre m post, l = (pre ++ m :: post)%list /\ bm' = Some m /\ (bs <? bs')%float = true /\
    forall x, In x pre ->
      (cosineSimilarity (embedding entryA) (embedding x) <? bs')%float = true \/
      is_nan (cosineSimilarity (embedding entryA) (embedding x)) = true.
Proof.
  intros entryA l. induction l as [|b l IH]; simpl; intros bm bs bm' bs' Hn H.
  - inversion H; auto.
  - destruct (bs <? cosineSimilarity (embedding entryA) (embedding b))%float eqn:Hlt.
    + right. destruct (IH _ _ _ _ (ltb_not_nan _ _ Hlt) H)
        as [[-> ->]|(pre & m & post & -> & -> & Hlt' & Hpre)].
      * exists [], b, l. split; [reflexivity|]. split; [reflexivity|].
        split; [exact Hlt|]. intros x [].
      * exists (b :: pre), m, post. split; [reflexivity|]. split; [reflexivity|].
        split; [eapply ltb_trans; eauto|]. intros x [<-|Hx]; auto.
    + destruct (IH _ _ _ _ Hn H) as [[-> ->]|(pre & m & post & -> & -> & Hlt' & Hpre)].
      * left. auto.
      * right. exists (b :: pre), m, post. split; [reflexivity|]. split; [reflexivity|].
        split; [exact Hlt'|]. intros x [<-|Hx]; auto.
        destruct (is_nan (cosineSimilarity (embedding entryA) (embedding b))) eqn:Hb; auto.
        left. apply (ltb_le_lt _ bs); assumption.
Qed.

(** [findBestMatch] throws ["No match found"] exactly when no target has
    a cosine similarity strictly above [-1] with the source entry (targets
    at [-1] or NaN never count); otherwise it returns a match. *)
Theorem findBestMatch_throws_iff : forall entryA datasetB,
  findBestMatch entryA datasetB = Throw "No match found" <->
  forall x, In x datasetB ->
    ((-1) <? cosineSimilarity (embedding entryA) (embedding x))%float = false.
Proof.
  intros entryA datasetB. unfold findBestMatch. split.
  - destruct (findBestMatch_loop entryA None (-1)%float datasetB) as [[m|] bs] eqn:Hl;
      [discriminate|]. intros _. eapply findBestMatch_loop_none; eauto.
  - intros H. rewrite findBestMatch_loop_keep by exact H. reflexivity.
Qed.

(** The returned score is a maximum: no target is strictly more similar
    to the source entry. *)
Theorem findBestMatch_returns_maximum : forall entryA datasetB r,
  findBestMatch entryA datasetB = Ok r ->
  forall x, In x datasetB ->
    (score r <? cosineSimilarity (embedding entryA) (embedding x))%float = false.
Proof.
  intros entryA datasetB r. unfold findBestMatch.
  destruct (findBestMatch_loop entryA None (-1)%float datasetB) as [[m|] bs] eqn:Hl;
    intros H; inversion H; subst; clear H.
  simpl. eapply findBestMatch_loop_max; eauto.
Qed.

Lemma findBestMatch_returns_maximum_witness :
  Forall (fun x => (1 <? cosineSimilarity (embedding srcEntry) (embedding x))%float = false)
    [oppositeEntry; sameEntry; zeroEntry].
Proof.
  apply Forall_forall.
  exact (findBestMatch_returns_maximum srcEntry [oppositeEntry; sameEntry; zeroEntry]
           {| match_ := sameEntry; score := 1%float |} ltac:(vm_compute; reflexivity)).
Defined.

(** Ties go to the first target: every target before the returned one is
    strictly less similar than the returned score, or NaN. *)
Theorem findBestMatch_first_of_ties : forall entryA datasetB r,
  findBestMatch entryA datasetB = Ok r ->
  exists pre post, datasetB = (pre ++ match_ r :: post)%list /\
    forall x, In x pre ->
      (cosineSimilarity (embedding entryA) (embedding x) <? score r)%float = true \/
      is_nan (cosineSimilarity (embedding entryA) (embedding x)) = true.
Proof.
  intros entryA datasetB r. unfold findBestMatch.
  destruct (findBestMatch_loop entryA None (-1)%float datasetB) as [[m|] bs] eqn:Hl;
    intros H; inversion H; subst; clear H.
  destruct (findBestMatch_loop_first _ _ _ _ _ _ (eq_refl : is_nan (-1)%float = false) Hl)
    as [[Hc _]|(pre & m' & post & -> & Hm & _ & Hpre)]; [discriminate|].
  inversion Hm; subst. simpl. eauto.
Qed.

Lemma findBestMatch_first_of_ties_witness :
  exists pre post,
    [zeroEntry; sameEntry; withEmbedding (profile 6 "F") [3%float]] =
      (pre ++ sameEntry :: post)%list /\
    forall x, In x pre ->
      (cosineSimilarity (embedding srcEntry) (embedding x) <? 1)%float = true \/
      is_nan (cosineSimilarity (embedding srcEntry) (embedding x)) = true.
Proof.
  exact (findBestMatch_first_of_ties srcEntry
           [zeroEntry; sameEntry; withEmbedding (profile 6 "F") [3%float]]
           {| match_ := sameEntry; score := 1%float |} ltac:(vm_compute; reflexivity)).
Defined.

(** ** The batch scheduler *)

Lemma firstn_add' : forall {A} n m (l : list A),
  firstn (n + m) l = (firstn n l ++ firstn m (skipn n l))%list.
Proof.
  intros A n. induction n as [|n IH]; intros m l; [reflexivity|].
  destruct l as [|x l]; simpl.
  - rewrite firstn_nil. reflexivity.
  - rewrite IH. reflexivity.
Qed.

(** When [Promise.all] resolves and no promise hangs, every promise
    resolved. *)
Lemma promiseAll_ok_items : forall {R} (ms : list (M R)) order vs,
  (forall o, In o (map snd ms) -> o <> Diverge) ->
  Permutation order (seq 0 (List.length ms)) ->
  snd (promiseAll order ms) = Ok vs ->
  forall o, In o (map snd ms) -> exists v, o = Ok v.
Proof.
  intros R ms order vs Hnd Hperm Hp.
  destruct (outcomes_ok_or_throw _ Hnd) as [[ws Hws]|(k & e & Hk)].
  - intros o Ho. rewrite Hws in Ho. apply in_map_iff in Ho. destruct Ho as (v & <- & _). eauto.
  - exfalso.
    assert (Hko : In k order).
    { apply (Permutation_in _ (Permutation_sym Hperm)). apply in_seq. split; [lia|].
      replace (List.length ms) with (List.length (map snd ms)) by apply length_map.
      apply nth_error_Some. congruence. }
    destruct (settle_reaches_throw _ _ (fun _ => None) _ _ Hnd Hko Hk) as [e' Hs].
    unfold promiseAll in Hp. simpl in Hp. rewrite Hs in Hp. discriminate.
Qed.

Lemma filter_nonpause_app : forall t1 t2,
  filter (fun ev => negb (isPause ev)) (t1 ++ t2) =
  (filter (fun ev => negb (isPause ev)) t1 ++ filter (fun ev => negb (isPause ev)) t2)%list.
Proof. intros. apply filter_app. Qed.

Lemma pauses_app : forall t1 t2, pauses (t1 ++ t2) = pauses t1 + pauses t2.
Proof. intros. unfold pauses. rewrite filter_app, length_app. reflexivity. Qed.

(** A loop that starts past the end of the list emits nothing. *)
Lemma batchLoop_done : forall {A R} B order (task : A -> M R) entries fuel i acc,
  List.length entries <= i ->
  fst (batchLoop B order task entries fuel i acc) = [] /\
  snd (batchLoop B order task entries fuel i acc) <> Throw "" /\
  forall e, snd (batchLoop B order task entries fuel i acc) <> Throw e.
Proof.
  intros A R B order task entries [|fuel] i acc Hi; cbn [batchLoop];
    [repeat split; discriminate|].
  apply Nat.ltb_ge in Hi. rewrite Hi. repeat split; discriminate.
Qed.

Section BatchFailure.
Context {A R : Type}.
Variable B : nat.
Variable order : nat -> nat -> list nat.
Variable task : A -> M R.
Variable entries : list A.
Hypothesis Horder : ValidOrder order.
Hypothesis Hnd : forall y, snd (task y) <> Diverge.
Hypothesis Hquiet : forall y, filter isPause (fst (task y)) = [].

(** A loop that throws stops after the batch that failed: with [k]
    batches before it, it issued the items' events of the first [k + 1]
    batches, paused [k] times, the failing batch has an item that threw
    the error, and every item of the [k] batches before resolved. *)
Lemma batchLoop_stops_after_failing_batch : forall fuel i acc e,
  snd (batchLoop B order task entries fuel i acc) = Throw e ->
  exists k,
    filter (fun ev => negb (isPause ev)) (fst (batchLoop B order task entries fuel i acc)) =
      List.concat (map (fun x => fst (task x)) (firstn (k * B + B) (skipn i entries))) /\
    pauses (fst (batchLoop B order task entries fuel i acc)) = k /\
    (exists x, In x (firstn B (skipn (k * B) (skipn i entries))) /\ snd (task x) = Throw e) /\
    (forall x, In x (firstn (k * B) (skipn i entries)) -> exists v, snd (task x) = Ok v).
Proof.
  induction fuel as [|fuel IH]; intros i acc e H; cbn [batchLoop] in *; [discriminate|].
  destruct (Nat.ltb i (List.length entries)) eqn:Hi; [|discriminate].
  set (batch := firstn B (skipn i entries)) in *.
  assert (Hq : filter isPause (List.concat (map fst (map task batch))) = []).
  { rewrite map_map. apply filter_pause_concat. auto. }
  assert (Hnd' : forall o, In o (map snd (map task batch)) -> o <> Diverge).
  { intros o Ho. rewrite map_map in Ho. apply in_map_iff in Ho.
    destruct Ho as (y & <- & _). auto. }
  assert (Hperm : Permutation (order i (List.length batch))
                    (seq 0 (List.length (map task batch))))
    by (rewrite length_map; apply Horder).
  rewrite bind_snd in H. rewrite bind_fst.
  destruct (snd (promiseAll (order i (List.length batch)) (map task batch)))
    as [vs|e'|] eqn:Hp; [|inversion H; subst e'|discriminate].
  - pose proof (promiseAll_ok_items _ _ _ Hnd' Hperm Hp) as Hall.
    rewrite bind_snd in H. rewrite bind_fst.
    destruct (Nat.ltb (i + B) (List.length entries)) eqn:Hi2.
    + cbn [emit fst snd] in *.
      destruct (IH _ _ _ H) as (k & H1 & H2 & H3 & H4).
      exists (S k).
      assert (Hs0 : skipn (i + B) entries = skipn B (skipn i entries))
        by (rewrite skipn_skipn; f_equal; lia).
      rewrite Hs0 in H1, H3, H4.
      replace (S k * B + B) with (B + (k * B + B)) by lia.
      replace (S k * B) with (B + k * B) by lia.
      rewrite (firstn_add' B (k * B + B)), (firstn_add' B (k * B)). fold batch.
      change (fst (promiseAll ?o (map task batch))) with (List.concat (map fst (map task batch))).
      split; [|split; [|split]].
      * rewrite !filter_nonpause_app, filter_no_pause by exact Hq. simpl.
        rewrite H1, map_app, concat_app, map_map. reflexivity.
      * rewrite !pauses_app, H2. unfold pauses at 1 2. rewrite Hq. reflexivity.
      * destruct H3 as (x & Hx & Hex). exists x. split; auto.
        rewrite skipn_skipn in Hx. rewrite Nat.add_comm. exact Hx.
      * intros x Hx. apply in_app_or in Hx. destruct Hx as [Hx|Hx]; auto.
        apply Hall. rewrite map_map. apply in_map_iff. eauto.
    + apply Nat.ltb_ge in Hi2. cbn [ret snd] in H.
      destruct (batchLoop_done B order task entries fuel (i + B)
                  (acc ++ vs)%list Hi2) as (_ & _ & Hn).
      exfalso. exact (Hn e H).
  - exists 0. simpl. rewrite app_nil_r. fold batch. split; [|split; [|split]].
    + rewrite filter_no_pause by exact Hq. rewrite map_map. reflexivity.
    + unfold pauses. rewrite Hq. reflexivity.
    + apply promiseAll_throw_in in Hp. rewrite map_map in Hp. apply in_map_iff in Hp.
      destruct Hp as (x & Hx & Hin). eauto.
    + intros x [].
Qed.
End BatchFailure.

Lemma embeddingRequests_app : forall t1 t2,
  embeddingRequests (t1 ++ t2) = (embeddingRequests t1 ++ embeddingRequests t2)%list.
Proof. intros. unfold embeddingRequests. apply flat_map_app. Qed.

Lemma embeddingRequests_no_pauses : forall t,
  embeddingRequests (filter (fun ev => negb (isPause ev)) t) = embeddingRequests t.
Proof.
  induction t as [|ev t IH]; [reflexivity|].
  destruct ev; simpl; rewrite ?embeddingRequests_app; simpl; rewrite IH; reflexivity.
Qed.

Lemma embeddingRequests_embedTask : forall svc l,
  embeddingRequests (List.concat (map (fun x => fst (embedTask svc x)) l)) =
  map createTextRepresentation l.
Proof.
  intros svc l. induction l as [|x l IH]; [reflexivity|].
  simpl. rewrite embeddingRequests_app, IH, embedTask_eq. reflexivity.
Qed.

(** A rejected embedding request stops the embedding stage after its
    batch of ten: with [k] batches before the failing one, the stage has
    sent the texts of the first [10 k + 10] entries, in order, and no
    later one, has paused [k] times, an entry of the failing batch was
    rejected with the error the stage throws, and every entry of the
    earlier batches was embedded. *)
Theorem embedding_stage_stops_after_failing_batch : forall svc order entries t e,
  ValidOrder order ->
  generateEmbeddingsWithBatching svc order entries = (t, Throw e) ->
  exists k,
    embeddingRequests t =
      map createTextRepresentation (firstn (k * BATCH_SIZE + BATCH_SIZE) entries) /\
    pauses t = k /\
    (exists x, In x (firstn BATCH_SIZE (skipn (k * BATCH_SIZE) entries)) /\
       embeddings_create svc (createTextRepresentation x) = Rejected e) /\
    (forall x, In x (firstn (k * BATCH_SIZE) entries) ->
       exists v, embeddings_create svc (createTextRepresentation x) = Resolved v).
Proof.
  intros svc order entries t e Ho H.
  destruct (batchLoop_stops_after_failing_batch BATCH_SIZE order (embedTask svc) entries Ho
              (embedTask_not_diverge svc) (embedTask_quiet svc)
              (S (List.length entries)) 0 [] e) as (k & H1 & H2 & H3 & H4).
  { unfold generateEmbeddingsWithBatching, runBatched in H. rewrite H. reflexivity. }
  unfold generateEmbeddingsWithBatching, runBatched in H. rewrite H in H1, H2.
  simpl in H1, H2, H3, H4. exists k. split; [|split; [|split]]; auto.
  - rewrite <- embeddingRequests_no_pauses, H1. apply embeddingRequests_embedTask.
  - destruct H3 as (x & Hx & Hex). exists x. split; auto.
    rewrite embedTask_eq in Hex. simpl in Hex.
    destruct (embeddings_create svc (createTextRepresentation x)); congruence.
  - intros x Hx. destruct (H4 x Hx) as [v Hv]. rewrite embedTask_eq in Hv. simpl in Hv.
    destruct (embeddings_create svc (createTextRepresentation x)) as [w|]; [eauto|discriminate].
Qed.

Lemma embedding_stage_stops_after_failing_batch_witness :
  let t := fst (generateEmbeddingsWithBatching rejectOneServices inOrder (letterEntries 25)) in
  exists k,
    embeddingRequests t =
      map createTextRepresentation (firstn (k * BATCH_SIZE + BATCH_SIZE) (letterEntries 25)) /\
    pauses t = k /\
    (exists x, In x (firstn BATCH_SIZE (skipn (k * BATCH_SIZE) (letterEntries 25))) /\
       embeddings_create rejectOneServices (createTextRepresentation x) =
         Rejected "500 Internal Server Error") /\
    (forall x, In x (firstn (k * BATCH_SIZE) (letterEntries 25)) ->
       exists v, embeddings_create rejectOneServices (createTextRepresentation x) = Resolved v).
Proof.
  cbv zeta.
  apply (embedding_stage_stops_after_failing_batch rejectOneServices inOrder (letterEntries 25)
           (fst (generateEmbeddingsWithBatching rejectOneServices inOrder (letterEntries 25)))
           "500 Internal Server Error").
  - apply inOrder_valid.
  - vm_compute. reflexivity.
Defined.

Lemma bursts_nonempty : forall t, bursts t <> [].
Proof.
  intros [|ev t]; simpl; [discriminate|].
  destruct (isPause ev); [discriminate|]. destruct (bursts t); discriminate.
Qed.

(** Events without a pause extend the first burst of what follows. *)
Lemma bursts_app_quiet : forall a b,
  filter isPause a = [] ->
  bursts (a ++ b) = match bursts b with
                    | c :: cs => (a ++ c)%list :: cs
                    | [] => [a]
                    end.
Proof.
  induction a as [|ev a IH]; intros b Hq; simpl.
  - destruct (bursts b) as [|c cs] eqn:Hb; [exfalso; exact (bursts_nonempty b Hb)|].
    reflexivity.
  - simpl in Hq. destruct (isPause ev); [discriminate|].
    rewrite IH by exact Hq.
    destruct (bursts b) as [|c cs] eqn:Hb; [exfalso; exact (bursts_nonempty b Hb)|].
    reflexivity.
Qed.

Lemma length_concat_le : forall {A R} (task : A -> M R) l,
  (forall x, List.length (fst (task x)) <= 1) ->
  List.length (List.concat (map (fun x => fst (task x)) l)) <= List.length l.
Proof.
  intros A R task l H. induction l as [|x l IH]; simpl; [lia|].
  rewrite length_app. specialize (H x). lia.
Qed.

(** Between two pauses of the batch loop come the events of at most one
    batch, when each item emits at most one event and no pause. *)
Lemma batchLoop_bursts : forall {A R} B order (task : A -> M R) entries,
  (forall y, filter isPause (fst (task y)) = []) ->
  (forall y, List.length (fst (task y)) <= 1) ->
  forall fuel i acc b, In b (bursts (fst (batchLoop B order task entries fuel i acc))) ->
  List.length b <= B.
Proof.
  intros A R B order task entries Hq H1.
  induction fuel as [|fuel IH]; intros i acc b; cbn [batchLoop].
  - simpl. intros [<-|[]]. simpl. lia.
  - destruct (Nat.ltb i (List.length entries)) eqn:Hi; [|simpl; intros [<-|[]]; simpl; lia].
    set (batch := firstn B (skipn i entries)).
    assert (Hqb : filter isPause (List.concat (map fst (map task batch))) = []).
    { rewrite map_map. apply filter_pause_concat. auto. }
    assert (Hlb : List.length (List.concat (map fst (map task batch))) <= B).
    { rewrite map_map. eapply Nat.le_trans; [apply length_concat_le; auto|].
      unfold batch. rewrite length_firstn. lia. }
    rewrite bind_fst.
    change (fst (promiseAll ?o (map task batch))) with (List.concat (map fst (map task batch))).
    rewrite bursts_app_quiet by exact Hqb.
    destruct (snd (promiseAll _ _)) as [vs|e|].
    + rewrite bind_fst.
      destruct (Nat.ltb (i + B) (List.length entries)) eqn:Hi2; cbn [emit ret fst snd].
      * simpl. rewrite app_nil_r. intros [<-|Hb]; [exact Hlb|]. eapply IH; eauto.
      * apply Nat.ltb_ge in Hi2.
        destruct (batchLoop_done B order task entries fuel (i + B) (acc ++ vs)%list Hi2)
          as (-> & _).
        simpl. rewrite app_nil_r. intros [<-|[]]. exact Hlb.
    + simpl. rewrite app_nil_r. intros [<-|[]]. exact Hlb.
    + simpl. rewrite app_nil_r. intros [<-|[]]. exact Hlb.
Qed.

(** The rate limit within a stage: between two pauses (and before the
    first, and after the last) each batched stage sends at most
    [BATCH_SIZE] requests, whatever the services answer and whatever
    the order of completion. *)
Theorem stage_bursts_at_most_batch_size : forall svc order entries comparisons,
  (forall b, In b (bursts (fst (generateEmbeddingsWithBatching svc order entries))) ->
     List.length b <= BATCH_SIZE) /\
  (forall b, In b (bursts (fst (generateDiffSummariesWithBatching svc order comparisons))) ->
     List.length b <= BATCH_SIZE).
Proof.
  intros svc order entries comparisons. split; intros b Hb.
  - eapply (batchLoop_bursts BATCH_SIZE order (embedTask svc) entries); eauto.
    + apply embedTask_quiet.
    + intros y. rewrite embedTask_eq. simpl. lia.
  - eapply (batchLoop_bursts BATCH_SIZE order (diffTask svc) comparisons); eauto.
    + apply diffTask_quiet.
    + intros y. rewrite diffTask_eq. simpl. destruct (similarityScore y =? 1)%float; simpl; lia.
Qed.

(** ** The pipeline *)

Lemma completionRequests_embedTask : forall svc l,
  completionRequests (List.concat (map (fun x => fst (embedTask svc x)) l)) = [].
Proof.
  intros svc l. induction l as [|x l IH]; [reflexivity|].
  simpl. rewrite completionRequests_app, IH, embedTask_eq. reflexivity.
Qed.

Lemma embeddingRequests_diffTask : forall svc l,
  embeddingRequests (List.concat (map (fun c => fst (diffTask svc c)) l)) = [].
Proof.
  intros svc l. induction l as [|c l IH]; [reflexivity|].
  simpl. rewrite embeddingRequests_app, IH, diffTask_eq.
  destruct (similarityScore c =? 1)%float; reflexivity.
Qed.

(** The embedding stage when every request resolves. *)
Lemma embedding_stage_resolves : forall svc order entries,
  ValidOrder order ->
  (forall x, In x entries ->
     exists v, embeddings_create svc (createTextRepresentation x) = Resolved v) ->
  snd (generateEmbeddingsWithBatching svc order entries) = Ok (map (embedValue svc) entries) /\
  embeddingRequests (fst (generateEmbeddingsWithBatching svc order entries)) =
    map createTextRepresentation entries /\
  completionRequests (fst (generateEmbeddingsWithBatching svc order entries)) = [] /\
  pauses (fst (generateEmbeddingsWithBatching svc order entries)) =
    (List.length entries - 1) / BATCH_SIZE.
Proof.
  intros svc order entries Ho Hres.
  assert (Hg : forall x, In x entries -> snd (embedTask svc x) = Ok (embedValue svc x)).
  { intros x Hx. destruct (Hres x Hx) as [v Hv].
    rewrite embedTask_eq. unfold embedValue. rewrite Hv. reflexivity. }
  destruct (runBatched_ok BATCH_SIZE order (embedTask svc) entries (embedValue svc)
              BATCH_SIZE_pos Ho Hg (fun x _ => embedTask_quiet svc x)) as (H1 & H2 & H3).
  unfold generateEmbeddingsWithBatching.
  split; [exact H1|]. split; [|split; [|exact H2]].
  - rewrite <- embeddingRequests_no_pauses, H3. apply embeddingRequests_embedTask.
  - rewrite <- completionRequests_no_pauses, H3. apply completionRequests_embedTask.
Qed.

Lemma diff_stage_no_embedding : forall svc order comparisons,
  ValidOrder order ->
  embeddingRequests (fst (generateDiffSummariesWithBatching svc order comparisons)) = [].
Proof.
  intros svc order comparisons Ho.
  destruct (runBatched_ok BATCH_SIZE order (diffTask svc) comparisons (diffValue svc)
              BATCH_SIZE_pos Ho (fun c _ => f_equal snd (diffTask_eq svc c))
              (fun c _ => diffTask_quiet svc c)) as (_ & _ & H3).
  unfold generateDiffSummariesWithBatching.
  rewrite <- embeddingRequests_no_pauses, H3. apply embeddingRequests_diffTask.
Qed.

(** A run that completes: every embedding request resolved, matching
    succeeded, and the trace is the two embedding stages, the diff stage
    and the report. *)
Lemma compareDatasets_ok_inv : forall svc timing now datasetA datasetB t,
  ValidTiming timing ->
  compareDatasets svc timing now datasetA datasetB = (t, Ok tt) ->
  (forall x, In x (datasetA ++ datasetB) ->
     exists v, embeddings_create svc (createTextRepresentation x) = Resolved v) /\
  exists comps,
    matchStage (map (embedValue svc) datasetB) (map (embedValue svc) datasetA) = ([], Ok comps) /\
    t = (fst (generateEmbeddingsWithBatching svc (orderA timing) datasetA) ++
         fst (generateEmbeddingsWithBatching svc (orderB timing) datasetB) ++
         fst (generateDiffSummariesWithBatching svc (orderDiff timing) comps) ++
         [EvWrite "comparison_report.json"
            {| comparisonDate := now; totalComparisons := List.length comps;
               results := map (diffValue svc) comps |}])%list.
Proof.
  intros svc timing now datasetA datasetB t (HoA & HoB & HoD) H.
  destruct (generateEmbeddingsWithBatching svc (orderA timing) datasetA) as [tA [eA|e|]] eqn:HA;
    [| unfold compareDatasets in H; rewrite HA in H; simpl in H; discriminate ..].
  destruct (generateEmbeddingsWithBatching svc (orderB timing) datasetB) as [tB [eB|e|]] eqn:HB;
    [| unfold compareDatasets in H; rewrite HA in H; simpl in H; rewrite HB in H;
       simpl in H; discriminate ..].
  destruct (matchStage eB eA) as [tM [comps|e|]] eqn:HM;
    [| unfold compareDatasets in H; rewrite HA in H; simpl in H; rewrite HB in H;
       simpl in H; rewrite HM in H; simpl in H; discriminate ..].
  rewrite (compareDatasets_after_matching svc timing now datasetA datasetB tA eA tB eB tM comps
             HA HB HM) in H.
  destruct (diff_stage_ok BATCH_SIZE (orderDiff timing) svc comps BATCH_SIZE_pos HoD)
    as (HD & _ & _).
  change (runBatched BATCH_SIZE (orderDiff timing) (diffTask svc) comps)
    with (generateDiffSummariesWithBatching svc (orderDiff timing) comps) in HD.
  rewrite HD in H. inversion H; subst t; clear H.
  destruct (embedding_stage_ok BATCH_SIZE (orderA timing) svc datasetA tA eA BATCH_SIZE_pos
              HoA HA) as (RA & -> & _ & _).
  destruct (embedding_stage_ok BATCH_SIZE (orderB timing) svc datasetB tB eB BATCH_SIZE_pos
              HoB HB) as (RB & -> & _ & _).
  pose proof (matchStage_trace (map (embedValue svc) datasetB) (map (embedValue svc) datasetA))
    as NM.
  rewrite HM in NM. simpl in NM. subst tM.
  split.
  - intros x Hx. apply in_app_or in Hx. destruct Hx; auto.
  - exists comps. split; [exact HM|]. rewrite length_map. reflexivity.
Qed.

(** Every comparison comes from an entry of the source list and its
    match. *)
Lemma matchStage_items : forall eB eA t comps,
  matchStage eB eA = (t, Ok comps) ->
  forall c, In c comps -> exists a r, In a eA /\ findBestMatch a eB = Ok r /\
    c = {| c_entryA := stripEmbedding a; c_match := stripEmbedding (match_ r);
           similarityScore := score r |}.
Proof.
  intros eB eA. induction eA as [|x rest IH]; intros t comps H c Hc.
  - inversion H; subst. contradiction.
  - rewrite matchStage_cons in H.
    destruct (findBestMatch x eB) as [r|e|] eqn:Hf; try discriminate.
    destruct (matchStage eB rest) as [t' [cs|e|]] eqn:Hr; inversion H; subst.
    destruct Hc as [<-|Hc].
    + exists x, r. split; [left; reflexivity|]. auto.
    + destruct (IH _ _ eq_refl c Hc) as (a & r' & Ha & Hf' & ->). exists a, r'.
      split; [right; exact Ha|]. auto.
Qed.

Lemma findBestMatch_cases : forall entryA l,
  findBestMatch entryA l = Throw "No match found" \/ exists r, findBestMatch entryA l = Ok r.
Proof.
  intros entryA l. unfold findBestMatch.
  destruct (findBestMatch_loop entryA None (-1)%float l) as [[m|] bs]; eauto.
Qed.

Lemma matchStage_all_ok : forall eB eA,
  (forall a, In a eA -> exists r, findBestMatch a eB = Ok r) ->
  exists comps, matchStage eB eA = ([], Ok comps).
Proof.
  intros eB eA. induction eA as [|x rest IH]; intros H; [eexists; reflexivity|].
  rewrite matchStage_cons. destruct (H x (or_introl eq_refl)) as [r ->].
  destruct IH as [cs ->]; [intros a Ha; apply H; right; exact Ha|].
  eexists; reflexivity.
Qed.

Lemma matchStage_no_match : forall eB eA,
  (exists a, In a eA /\ findBestMatch a eB = Throw "No match found") ->
  matchStage eB eA = ([], Throw "No match found").
Proof.
  intros eB eA. induction eA as [|x rest IH]; intros (a & Ha & Hf); [contradiction|].
  rewrite matchStage_cons.
  destruct (findBestMatch_cases x eB) as [Hx|[r Hx]]; rewrite Hx; [reflexivity|].
  destruct Ha as [<-|Ha]; [congruence|].
  rewrite IH by eauto. reflexivity.
Qed.

Lemma compareDatasets_match_throws :
  forall svc timing now datasetA datasetB tA eA tB eB tM e,
  generateEmbeddingsWithBatching svc (orderA timing) datasetA = (tA, Ok eA) ->
  generateEmbeddingsWithBatching svc (orderB timing) datasetB = (tB, Ok eB) ->
  matchStage eB eA = (tM, Throw e) ->
  compareDatasets svc timing now datasetA datasetB = ((tA ++ tB ++ tM)%list, Throw e).
Proof.
  intros svc timing now datasetA datasetB tA eA tB eB tM e HA HB HM.
  unfold compareDatasets. rewrite HA, bind_ok. cbn beta. rewrite HB, bind_ok. cbn beta.
  rewrite HM. reflexivity.
Qed.

(** [findBestMatch] returns a target strictly above [-1] when one exists. *)
Lemma findBestMatch_some : forall entryA l,
  (exists x, In x l /\ ((-1) <? cosineSimilarity (embedding entryA) (embedding x))%float = true) ->
  exists r, findBestMatch entryA l = Ok r.
Proof.
  intros entryA l (x & Hx & Hlt). unfold findBestMatch.
  destruct (findBestMatch_loop entryA None (-1)%float l) as [[m|] bs] eqn:Hl; eauto.
  rewrite (findBestMatch_loop_none _ _ _ _ Hl x Hx) in Hlt. discriminate.
Qed.

(** What a returned match satisfies (the proof of [findBestMatch]'s
    postcondition, for the pipeline). *)
Lemma findBestMatch_ok_facts : forall entryA l r,
  findBestMatch entryA l = Ok r ->
  ((-1) <? score r)%float = true /\ is_nan (score r) = false /\
  score r = cosineSimilarity (embedding entryA) (embedding (match_ r)) /\
  In (match_ r) l /\
  forall x, In x l -> (score r <? cosineSimilarity (embedding entryA) (embedding x))%float = false.
Proof.
  intros entryA l r. unfold findBestMatch.
  destruct (findBestMatch_loop entryA None (-1)%float l) as [[m|] bs] eqn:Hl;
    intros H; inversion H; subst; clear H; simpl.
  destruct (findBestMatch_loop_spec _ _ _ _ _ _ Hl) as [[Hc _] | (m' & Hm & Hin & Hs & Hlt)];
    [discriminate|].
  inversion Hm; subst. repeat split; auto.
  - eapply ltb_not_nan; eauto.
  - eapply findBestMatch_loop_max; eauto.
Qed.




(** A run that completes sends the texts of all entries of [datasetA]
    and then of [datasetB] to the embedding service, in order, one request
    each; it asks the completion service once for every result of the
    report whose score is not [1], in the order of the report; and the
    report is the last thing it does. *)
Theorem run_requests_in_order : forall svc timing now datasetA datasetB t,
  ValidTiming timing ->
  compareDatasets svc timing now datasetA datasetB = (t, Ok tt) ->
  exists r t',
    t = (t' ++ [EvWrite "comparison_report.json" r])%list /\
    reportsWritten t = [r] /\
    embeddingRequests t = map createTextRepresentation (datasetA ++ datasetB) /\
    completionRequests t =
      map (fun res => diffPrompt (cr_entryA res) (cr_match res))
          (filter (fun res => negb (cr_similarityScore res =? 1)%float) (results r)).
Proof.
  intros svc timing now datasetA datasetB t Ht H.
  pose proof Ht as (HoA & HoB & HoD).
  destruct (compareDatasets_ok_inv _ _ _ _ _ _ Ht H) as (Hres & comps & _ & ->).
  destruct (embedding_stage_resolves svc (orderA timing) datasetA HoA
              (fun x Hx => Hres x (in_or_app _ _ _ (or_introl Hx)))) as (_ & EA & CA & _).
  destruct (embedding_stage_resolves svc (orderB timing) datasetB HoB
              (fun x Hx => Hres x (in_or_app _ _ _ (or_intror Hx)))) as (_ & EB & CB & _).
  destruct (diff_stage_ok BATCH_SIZE (orderDiff timing) svc comps BATCH_SIZE_pos HoD)
    as (_ & _ & CD).
  change (runBatched BATCH_SIZE (orderDiff timing) (diffTask svc) comps)
    with (generateDiffSummariesWithBatching svc (orderDiff timing) comps) in CD.
  eexists; eexists; split; [rewrite !app_assoc; reflexivity|]. split; [|split].
  - rewrite !trace_reports_app, embedding_stage_no_report, embedding_stage_no_report,
      diff_stage_no_report. reflexivity.
  - rewrite !embeddingRequests_app, EA, EB, diff_stage_no_embedding by exact HoD.
    simpl. rewrite map_app, !app_nil_r. reflexivity.
  - rewrite !completionRequests_app, CA, CB, CD. simpl. rewrite app_nil_r.
    clear. induction comps as [|c cs IH]; [reflexivity|].
    simpl. destruct (similarityScore c =? 1)%float; simpl; rewrite IH; reflexivity.
Qed.

Lemma run_requests_in_order_witness :
  exists r t',
    fst (compareDatasets (distinctServices answerText) (sameTiming inReverse) "now"
           datasetA0 datasetB0) = (t' ++ [EvWrite "comparison_report.json" r])%list /\
    reportsWritten (fst (compareDatasets (distinctServices answerText) (sameTiming inReverse)
                           "now" datasetA0 datasetB0)) = [r] /\
    embeddingRequests (fst (compareDatasets (distinctServices answerText) (sameTiming inReverse)
                              "now" datasetA0 datasetB0)) =
      map createTextRepresentation (datasetA0 ++ datasetB0) /\
    completionRequests (fst (compareDatasets (distinctServices answerText) (sameTiming inReverse)
                               "now" datasetA0 datasetB0)) =
      map (fun res => diffPrompt (cr_entryA res) (cr_match res))
          (filter (fun res => negb (cr_similarityScore res =? 1)%float) (results r)).
Proof.
  apply (run_requests_in_order (distinctServices answerText) (sameTiming inReverse) "now"
           datasetA0 datasetB0).
  - split; [|split]; apply inReverse_valid.
  - vm_compute. reflexivity.
Defined.

(** When every embedding request resolves, the run fails with
    ["No match found"] exactly when some entry of [datasetA] has no entry
    of [datasetB] with a similarity strictly above [-1] (in particular
    when [datasetB] is empty and [datasetA] is not); it then fails after
    embedding both datasets, before any completion request and without
    writing a report.  Otherwise it completes. *)
Theorem run_fails_exactly_without_match : forall svc timing now datasetA datasetB,
  ValidTiming timing ->
  (forall x, In x (datasetA ++ datasetB) ->
     exists v, embeddings_create svc (createTextRepresentation x) = Resolved v) ->
  ((exists a, In a datasetA /\ forall y, In y datasetB ->
      ((-1) <? cosineSimilarity (embedding (embedValue svc a))
                                (embedding (embedValue svc y)))%float = false) ->
   exists t, compareDatasets svc timing now datasetA datasetB = (t, Throw "No match found") /\
     embeddingRequests t = map createTextRepresentation (datasetA ++ datasetB) /\
     completionRequests t = [] /\ reportsWritten t = []) /\
  ((forall a, In a datasetA -> exists y, In y datasetB /\
      ((-1) <? cosineSimilarity (embedding (embedValue svc a))
                                (embedding (embedValue svc y)))%float = true) ->
   exists t, compareDatasets svc timing now datasetA datasetB = (t, Ok tt)).
Proof.
  intros svc timing now datasetA datasetB (HoA & HoB & HoD) Hres.
  destruct (embedding_stage_resolves svc (orderA timing) datasetA HoA
              (fun x Hx => Hres x (in_or_app _ _ _ (or_introl Hx)))) as (SA & EA & CA & _).
  destruct (embedding_stage_resolves svc (orderB timing) datasetB HoB
              (fun x Hx => Hres x (in_or_app _ _ _ (or_intror Hx)))) as (SB & EB & CB & _).
  destruct (generateEmbeddingsWithBatching svc (orderA timing) datasetA) as [tA oA] eqn:HA.
  destruct (generateEmbeddingsWithBatching svc (orderB timing) datasetB) as [tB oB] eqn:HB.
  simpl in SA, SB, EA, EB, CA, CB. subst oA oB.
  split.
  - intros (a & Ha & Hno).
    rewrite (compareDatasets_match_throws svc timing now datasetA datasetB tA _ tB _ []
               "No match found" HA HB).
    + eexists; split; [reflexivity|]. split; [|split].
      * rewrite !embeddingRequests_app, EA, EB. simpl. rewrite map_app, app_nil_r. reflexivity.
      * rewrite !completionRequests_app, CA, CB. reflexivity.
      * pose proof (embedding_stage_no_report svc (orderA timing) datasetA) as NA.
        pose proof (embedding_stage_no_report svc (orderB timing) datasetB) as NB.
        rewrite HA in NA. rewrite HB in NB. simpl in NA, NB.
        rewrite !trace_reports_app, NA, NB. reflexivity.
    + apply matchStage_no_match. exists (embedValue svc a). split; [apply in_map; exact Ha|].
      unfold findBestMatch. rewrite findBestMatch_loop_keep; [reflexivity|].
      intros x Hx. apply in_map_iff in Hx. destruct Hx as (y & <- & Hy). auto.
  - intros Hall.
    destruct (matchStage_all_ok (map (embedValue svc) datasetB) (map (embedValue svc) datasetA))
      as [comps HM].
    { intros a' Ha'. apply in_map_iff in Ha'. destruct Ha' as (a & <- & Ha).
      destruct (Hall a Ha) as (y & Hy & Hlt). apply findBestMatch_some.
      exists (embedValue svc y). split; [apply in_map; exact Hy | exact Hlt]. }
    rewrite (compareDatasets_after_matching svc timing now datasetA datasetB tA _ tB _ [] comps
               HA HB HM).
    destruct (diff_stage_ok BATCH_SIZE (orderDiff timing) svc comps BATCH_SIZE_pos HoD)
      as (HD & _ & _).
    change (runBatched BATCH_SIZE (orderDiff timing) (diffTask svc) comps)
      with (generateDiffSummariesWithBatching svc (orderDiff timing) comps) in HD.
    rewrite HD. eexists. reflexivity.
Qed.

Lemma run_fails_exactly_without_match_witness :
  exists t, compareDatasets (stubServices answerText) (sameTiming inOrder) "now"
              datasetA0 [] = (t, Throw "No match found") /\
     embeddingRequests t = map createTextRepresentation (datasetA0 ++ []) /\
     completionRequests t = [] /\ reportsWritten t = [].
Proof.
  apply (proj1 (run_fails_exactly_without_match (stubServices answerText) (sameTiming inOrder)
                  "now" datasetA0 [] ltac:(split; [|split]; apply inOrder_valid)
                  ltac:(intros x _; eexists; reflexivity))).
  exists (profile 1 "A"). split; [left; reflexivity|]. intros y [].
Defined.

(** With an empty [datasetA] (and [datasetB]'s embedding requests
    resolving) the run still embeds every entry of [datasetB], then writes
    a report with no results and [totalComparisons = 0], without any
    completion request; the average similarity it prints is [0 / 0],
    NaN. *)
Theorem empty_source_gives_empty_report : forall svc timing now datasetB,
  ValidTiming timing ->
  (forall x, In x datasetB ->
     exists v, embeddings_create svc (createTextRepresentation x) = Resolved v) ->
  exists t r, compareDatasets svc timing now [] datasetB = (t, Ok tt) /\
    reportsWritten t = [r] /\ results r = [] /\ totalComparisons r = 0 /\
    embeddingRequests t = map createTextRepresentation datasetB /\
    completionRequests t = [] /\
    is_nan (averageSimilarityScore (results r)) = true.
Proof.
  intros svc timing now datasetB (HoA & HoB & HoD) Hres.
  destruct (embedding_stage_resolves svc (orderB timing) datasetB HoB Hres)
    as (SB & EB & CB & _).
  destruct (generateEmbeddingsWithBatching svc (orderB timing) datasetB) as [tB oB] eqn:HB.
  simpl in SB, EB, CB. subst oB.
  assert (HA : generateEmbeddingsWithBatching svc (orderA timing) [] = ([], Ok []))
    by reflexivity.
  rewrite (compareDatasets_after_matching svc timing now [] datasetB [] [] tB _ [] []
             HA HB eq_refl).
  simpl.
  eexists; eexists; split; [reflexivity|].
  split.
  { pose proof (embedding_stage_no_report svc (orderB timing) datasetB) as NB.
    rewrite HB in NB. simpl in NB. rewrite trace_reports_app, NB. reflexivity. }
  split; [reflexivity|]. split; [reflexivity|]. split; [|split].
  - rewrite embeddingRequests_app, EB. simpl. rewrite app_nil_r. reflexivity.
  - rewrite completionRequests_app, CB. reflexivity.
  - vm_compute. reflexivity.
Qed.

Lemma empty_source_gives_empty_report_witness :
  exists t r, compareDatasets (stubServices answerText) (sameTiming inOrder) "now" []
                datasetB0 = (t, Ok tt) /\
    reportsWritten t = [r] /\ results r = [] /\ totalComparisons r = 0 /\
    embeddingRequests t = map createTextRepresentation datasetB0 /\
    completionRequests t = [] /\
    is_nan (averageSimilarityScore (results r)) = true.
Proof.
  apply (empty_source_gives_empty_report (stubServices answerText) (sameTiming inOrder) "now"
           datasetB0 ltac:(split; [|split]; apply inOrder_valid)
           ltac:(intros x _; eexists; reflexivity)).
Defined.

(** Every score in a written report is strictly above [-1], not NaN, and
    the cosine similarity of the embeddings of the result's two entries;
    and no entry of [datasetB] is strictly more similar to the result's
    source entry than its match. *)
Theorem report_scores_are_best_similarities : forall svc timing now datasetA datasetB t r,
  ValidTiming timing ->
  compareDatasets svc timing now datasetA datasetB = (t, Ok tt) ->
  In r (reportsWritten t) ->
  forall res, In res (results r) ->
    ((-1) <? cr_similarityScore res)%float = true /\
    is_nan (cr_similarityScore res) = false /\
    cr_similarityScore res =
      cosineSimilarity (embedding (embedValue svc (cr_entryA res)))
                       (embedding (embedValue svc (cr_match res))) /\
    forall y, In y datasetB ->
      (cr_similarityScore res <?
         cosineSimilarity (embedding (embedValue svc (cr_entryA res)))
                          (embedding (embedValue svc y)))%float = false.
Proof.
  intros svc timing now datasetA datasetB t r Ht H Hr res Hres.
  destruct (compareDatasets_ok_inv _ _ _ _ _ _ Ht H) as (_ & comps & HM & ->).
  rewrite !trace_reports_app, embedding_stage_no_report, embedding_stage_no_report,
    diff_stage_no_report in Hr.
  simpl in Hr. destruct Hr as [<-|[]]. simpl in Hres.
  apply in_map_iff in Hres. destruct Hres as (c & <- & Hc).
  destruct (matchStage_items _ _ _ _ HM c Hc) as (a & r0 & Ha & Hf & ->).
  apply in_map_iff in Ha. destruct Ha as (x & <- & _).
  destruct (findBestMatch_ok_facts _ _ _ Hf) as (H1 & H2 & H3 & H4 & H5).
  apply in_map_iff in H4. destruct H4 as (y0 & Hy0 & _).
  cbn [diffValue comparisonResult cr_entryA cr_match cr_similarityScore c_entryA c_match
       similarityScore].
  rewrite <- Hy0, !stripEmbedding_embedValue. rewrite Hy0.
  repeat split; auto.
  intros y Hy. apply H5. apply in_map. exact Hy.
Qed.

Lemma report_scores_are_best_similarities_witness :
  let svc := distinctServices answerText in
  let t := fst (compareDatasets svc (sameTiming inReverse) "now" datasetA0 datasetB0) in
  Forall (fun res =>
    ((-1) <? cr_similarityScore res)%float = true /\
    is_nan (cr_similarityScore res) = false /\
    cr_similarityScore res =
      cosineSimilarity (embedding (embedValue svc (cr_entryA res)))
                       (embedding (embedValue svc (cr_match res))) /\
    forall y, In y datasetB0 ->
      (cr_similarityScore res <?
         cosineSimilarity (embedding (embedValue svc (cr_entryA res)))
                          (embedding (embedValue svc y)))%float = false)
    (results (hd {| comparisonDate := ""; totalComparisons := 0; results := [] |}
                 (reportsWritten t))).
Proof.
  cbv zeta. apply Forall_forall. intros res Hres.
  apply (report_scores_are_best_similarities (distinctServices answerText) (sameTiming inReverse)
           "now" datasetA0 datasetB0
           (fst (compareDatasets (distinctServices answerText) (sameTiming inReverse)
                   "now" datasetA0 datasetB0))
           (hd {| comparisonDate := ""; totalComparisons := 0; results := [] |}
               (reportsWritten (fst (compareDatasets (distinctServices answerText)
                  (sameTiming inReverse) "now" datasetA0 datasetB0))))).
  - split; [|split]; apply inReverse_valid.
  - vm_compute. reflexivity.
  - vm_compute. left. reflexivity.
  - exact Hres.
Defined.


